(** * Cavy [Tester]: a shallow embedding of [src/Tester.js]

    [Tester] is the React component that wraps the application under test.
    It builds the reporter, runs every spec function against a new
    [TestScope], hands the scopes to a [TestRunner], and offers the runner
    two hooks: [reRender] and [clearAsync].

    The component talks to code that lives outside [Tester.js] (React,
    [TestScope], [TestRunner], [Reporter], [AsyncStorage], the spec
    functions).  Each method is therefore written as a program in a small
    monad whose effects are exactly the calls the source makes; an
    environment answers the calls, and the interpreter records them in a
    trace.  The statements below hold for every environment unless a
    reference environment is named. *)

From Stdlib Require Import QArith.
From stdpp Require Import base option list strings gmap.

Local Open Scope string_scope.
Local Open Scope list_scope.

Set Warnings "-register-all".

(** ** JavaScript values *)

Module JS.

(** Primitive values.  A finite number is a rational; [PNaN] is kept apart
    because it is falsy and equal to nothing. *)
Inductive primitive : Type :=
| PUndefined
| PNull
| PBool (b : bool)
| PNumber (q : Q)
| PNaN
| PString (s : string).

(** What this file observes of an object: its identity, whether
    [Function.prototype] is on its prototype chain (the test of
    [instanceof Function]), whether it has [[Call]] and [[Construct]],
    whether it is a React element ([$$typeof === REACT_ELEMENT_TYPE]) and
    the primitive held by its [type] property ([PUndefined] when absent). *)
Record object : Type := Object {
  addr : nat;
  inherits_Function : bool;
  callable : bool;
  constructible : bool;
  react_element : bool;
  type_prop : primitive
}.

(** Arrays and error objects are objects too; they are kept apart because
    the file looks at the items of the one and the message of the other. *)
Inductive value : Type :=
| VPrim (p : primitive)
| VObject (o : object)
| VArray (items : list value)
| VError (name message : string).

Abbreviation VUndefined := (VPrim PUndefined).
Abbreviation VNull := (VPrim PNull).
Abbreviation VBool b := (VPrim (PBool b)).
Abbreviation VNumber q := (VPrim (PNumber q)).
Abbreviation VNaN := (VPrim PNaN).
Abbreviation VString s := (VPrim (PString s)).

(** ToBoolean *)
Definition truthy (v : value) : bool :=
  match v with
  | VPrim PUndefined | VPrim PNull | VPrim PNaN => false
  | VPrim (PBool b) => b
  | VPrim (PNumber q) => negb (Qeq_bool q 0)
  | VPrim (PString s) => negb (String.eqb s "")
  | VObject _ | VArray _ | VError _ _ => true
  end.

(** [v instanceof Function] *)
Definition instanceof_Function (v : value) : bool :=
  match v with
  | VObject o => inherits_Function o
  | _ => false
  end.

(** [a || b] *)
Definition or (a b : value) : value := if truthy a then a else b.

(** IsCallable and IsConstructor *)
Definition is_callable (v : value) : bool :=
  match v with VObject o => callable o | _ => false end.

Definition is_constructor (v : value) : bool :=
  match v with VObject o => constructible o | _ => false end.

(** [p == s] for a primitive [p] and a string [s] that is not numeric
    (ToNumber(s) is NaN): only the same string is loosely equal to it. *)
Definition loose_eq_string (p : primitive) (s : string) : bool :=
  match p with
  | PString s' => String.eqb s' s
  | _ => false
  end.

(** The completion of a call: a value, or a thrown value. *)
Inductive completion (A : Type) : Type :=
| Normal (a : A)
| Abrupt (e : value).
Arguments Normal {A} a.
Arguments Abrupt {A} e.

End JS.
Export JS.

(** ** The component's data *)

(** [this.props], after React has merged [defaultProps].  [specs] is typed
    as [propTypes] declares it, an array; [children] is [props.children]. *)
Record Props : Type := mkProps {
  clearAsyncStorage : value;
  only : value;
  reporter : value;
  sendReport : value;
  specs : list value;
  startDelay : value;
  store : value;
  waitTime : value;
  children : value
}.

(** [this.state] has the single property [key], always a draw of
    [Math.random()]. *)
Record State : Type := mkState { key : Q }.

Record Tester : Type := mkTester {
  this_props : Props;
  this_state : State;
  this_testHookStore : value;
  this_reporter : value
}.

(** ** Effects, programs and their runs *)

(** Calls whose answer comes from outside [Tester.js]. *)
Inductive eff : Type :=
| Construct (cls : value)                         (* [new cls], [cls] a constructor *)
| New_TestScope (component : Tester) (waitTime : value)
| Call (f : value) (args : list value)            (* [f(...args)], [f] callable *)
| Await (v : value)
| New_TestRunner (component : Tester) (testSuites : list value)
                 (startDelay reporter sendReport only : value)
| runner_run (runner : value)
| reporter_onStart (reporter : value)
| AsyncStorage_getAllKeys
| promise_then (p onFulfilled : value)
(* the registry's own operations, offered to whoever holds the store *)
| store_register (store : value) (identifier : string) (handle : value)
| store_unregister (store : value) (identifier : string)
| store_lookup (store : value) (identifier : string).

(** Calls that only leave a mark: [console.warn], and [this.setState] (React
    queues the partial state). *)
Inductive output : Type :=
| console_warn (args : list value)
| setState (partial : State).

Inductive prog (R : Type) : Type :=
| Ret (r : R)
| Throw (e : value)
| Random (k : Q → prog R)                         (* [Math.random()] *)
| Emit (o : output) (k : prog R)
| Vis (e : eff) (k : completion value → prog R).
Arguments Ret {R} r.
Arguments Throw {R} e.
Arguments Random {R} k.
Arguments Emit {R} o k.
Arguments Vis {R} e k.

Fixpoint bind {A B} (m : prog A) (f : A → prog B) : prog B :=
  match m with
  | Ret a => f a
  | Throw e => Throw e
  | Random k => Random (λ r, bind (k r) f)
  | Emit o k => Emit o (bind k f)
  | Vis e k => Vis e (λ c, bind (k c) f)
  end.

#[global] Instance prog_ret : MRet prog := @Ret.
#[global] Instance prog_bind : MBind prog := λ A B f m, bind m f.

(** [try { body } catch (e) { handler e }] *)
Fixpoint try_catch {A} (body : prog A) (handler : value → prog A) : prog A :=
  match body with
  | Ret a => Ret a
  | Throw e => handler e
  | Random k => Random (λ r, try_catch (k r) handler)
  | Emit o k => Emit o (try_catch k handler)
  | Vis e k => Vis e (λ c, try_catch (k c) handler)
  end.

(** An external call whose exception propagates. *)
Definition call (e : eff) : prog value :=
  Vis e (λ c, match c with Normal v => Ret v | Abrupt x => Throw x end).

Definition Math_random : prog Q := Random Ret.

Definition emit (o : output) : prog unit := Emit o (Ret tt).

Definition TypeError (message : string) : value := VError "TypeError" message.

Definition ReferenceError (message : string) : value :=
  VError "ReferenceError" message.

(** [name = v] for a [name] that no scope declares.  [Tester.js] is a
    module and the assignment stands in a class body: both are strict code,
    where such an assignment throws instead of making a global. *)
Definition assign_undeclared (name : string) (v : value) : prog unit :=
  Throw (ReferenceError (name ++ " is not defined")).

(** [new cls]: a TypeError unless [cls] is a constructor. *)
Definition js_new (cls : value) : prog value :=
  if is_constructor cls then call (Construct cls)
  else Throw (TypeError "reporterClass is not a constructor").

(** [f(...args)]: a TypeError unless [f] is callable. *)
Definition js_call (f : value) (args : list value) : prog value :=
  if is_callable f then call (Call f args)
  else Throw (TypeError "specs[i] is not a function").

(** What a run leaves behind: the draws, the marks and the calls, each call
    with its answer ([None]: it never came back). *)
Inductive event : Type :=
| Drew (r : Q)
| Emitted (o : output)
| Called (e : eff) (answer : option (completion value)).

Inductive outcome (R : Type) : Type :=
| Finished (c : completion R)
| Pending.
Arguments Finished {R} c.
Arguments Pending {R}.

(** Where a synchronous stretch of a program stops. *)
Inductive status (R : Type) : Type :=
| Completed (c : completion R)
| Suspended (v : value) (k : completion value → prog R)   (* at [await v] *)
| Hung.
Arguments Completed {R} c.
Arguments Suspended {R} v k.
Arguments Hung {R}.

(** The environment: a source of random numbers and the answers to the
    external calls, both over a state of its own. *)
Record environment (W : Type) : Type := mkEnv {
  random : W → Q * W;
  respond : eff → W → option (completion value) * W
}.
Arguments random {W} _ _.
Arguments respond {W} _ _ _.

Section Run.
Context {W : Type} (env : environment W).

(** The whole run of a program, through every [await]. *)
Fixpoint run {R} (p : prog R) (w : W) : list event * W * outcome R :=
  match p with
  | Ret r => ([], w, Finished (Normal r))
  | Throw e => ([], w, Finished (Abrupt e))
  | Random k =>
      let '(r, w1) := random env w in
      let '(tr, w2, o) := run (k r) w1 in
      (Drew r :: tr, w2, o)
  | Emit o k =>
      let '(tr, w1, res) := run k w in
      (Emitted o :: tr, w1, res)
  | Vis e k =>
      match respond env e w with
      | (None, w1) => ([Called e None], w1, Pending)
      | (Some c, w1) =>
          let '(tr, w2, o) := run (k c) w1 in
          (Called e (Some c) :: tr, w2, o)
      end
  end.

(** The synchronous stretch up to the first [await]: what a call of an
    async function does before it returns its promise. *)
Fixpoint run_sync {R} (p : prog R) (w : W) : list event * W * status R :=
  match p with
  | Ret r => ([], w, Completed (Normal r))
  | Throw e => ([], w, Completed (Abrupt e))
  | Random k =>
      let '(r, w1) := random env w in
      let '(tr, w2, st) := run_sync (k r) w1 in
      (Drew r :: tr, w2, st)
  | Emit o k =>
      let '(tr, w1, st) := run_sync k w in
      (Emitted o :: tr, w1, st)
  | Vis (Await v) k => ([], w, Suspended v k)
  | Vis e k =>
      match respond env e w with
      | (None, w1) => ([Called e None], w1, Hung)
      | (Some c, w1) =>
          let '(tr, w2, st) := run_sync (k c) w1 in
          (Called e (Some c) :: tr, w2, st)
      end
  end.

(** The rest of a suspended async function, run as a later job. *)
Definition resume {R} (st : status R) (w : W) : list event * W * outcome R :=
  match st with
  | Completed c => ([], w, Finished c)
  | Suspended v k => run (Vis (Await v) k) w
  | Hung => ([], w, Pending)
  end.

End Run.

Definition trace_of {W R} (r : list event * W * outcome R) : list event := r.1.1.
Definition world_of {W R} (r : list event * W * outcome R) : W := r.1.2.
Definition outcome_of {W R} (r : list event * W * outcome R) : outcome R := r.2.

(** The executions of a program: every trace it can leave and how it can
    end, whatever answers the calls and whenever a suspended stretch is
    taken up again. *)
Inductive exec {R} : prog R → list event → outcome R → Prop :=
| exec_ret r : exec (Ret r) [] (Finished (Normal r))
| exec_throw e : exec (Throw e) [] (Finished (Abrupt e))
| exec_random k r tr o :
    exec (k r) tr o → exec (Random k) (Drew r :: tr) o
| exec_emit out k tr o :
    exec k tr o → exec (Emit out k) (Emitted out :: tr) o
| exec_call e k c tr o :
    exec (k c) tr o → exec (Vis e k) (Called e (Some c) :: tr) o
| exec_hang e k : exec (Vis e k) [Called e None] Pending.

(** ** [Tester.js] *)

(** The imported [Reporter] class and [AsyncStorage.multiRemove]. *)
Definition Reporter : value :=
  VObject (Object 1 true true true false PUndefined).
Definition AsyncStorage_multiRemove : value :=
  VObject (Object 2 true true false false PUndefined).

Definition deprecation_message : string :=
  "Deprecation warning: support for custom function" ++
  "reporters will soon be deprecated. Cavy supports custom " ++
  "class based reporters. For more info, see the " ++
  "documentation here: " ++
  "https://cavy.app/docs/guides/writing-custom-reporters".

(** [constructor(props, context)] *)
Definition Tester_constructor (props : Props) : prog Tester :=
  k ← Math_random;
  let state := {| key := k |} in
  let testHookStore := store props in
  if instanceof_Function (reporter props) then
    emit (console_warn [VString deprecation_message]);;
    mret (mkTester props state testHookStore (reporter props))
  else
    let reporterClass := JS.or (reporter props) Reporter in
    assign_undeclared "reporterClass" reporterClass;;
    r ← js_new reporterClass;
    mret (mkTester props state testHookStore r).

(** The [for] loop of [runTests]: [specs] is what is left of the array,
    [testSuites] what has been pushed. *)
Fixpoint runTests_loop (this : Tester) (waitTime : value)
    (specs : list value) (testSuites : list value) : prog (list value) :=
  match specs with
  | [] => mret testSuites
  | spec :: rest =>
      scope ← call (New_TestScope this waitTime);
      promise ← js_call spec [scope];
      call (Await promise);;
      runTests_loop this waitTime rest (testSuites ++ [scope])
  end.

(** [async runTests()] *)
Definition runTests (this : Tester) : prog unit :=
  let p := this_props this in
  testSuites ← runTests_loop this (waitTime p) (specs p) [];
  runner ← call (New_TestRunner this testSuites (startDelay p)
                   (this_reporter this) (sendReport p) (only p));
  call (runner_run runner);;
  mret tt.

(** [this.reporter.type]: reading a property of [null] or [undefined]
    throws; values other than the modelled objects have no [type]. *)
Definition read_type (v : value) : prog primitive :=
  match v with
  | VPrim PUndefined | VPrim PNull =>
      Throw (TypeError "Cannot read property type of undefined")
  | VObject o => mret (type_prop o)
  | _ => mret PUndefined
  end.

(** The statements of [componentDidMount] that follow [this.runTests()]. *)
Definition componentDidMount_rest (this : Tester) : prog unit :=
  if negb (instanceof_Function (this_reporter this)) then
    type ← read_type (this_reporter this);
    if loose_eq_string type "realtime" then
      call (reporter_onStart (this_reporter this));;
      mret tt
    else mret tt
  else mret tt.

(** [reRender()] *)
Definition reRender (this : Tester) : prog unit :=
  r ← Math_random;
  emit (setState {| key := r |}).

(** [async clearAsync()] *)
Definition clearAsync (this : Tester) : prog unit :=
  if truthy (clearAsyncStorage (this_props this)) then
    try_catch
      (keys ← call AsyncStorage_getAllKeys;
       removed ← call (promise_then keys AsyncStorage_multiRemove);
       call (Await removed);;
       mret tt)
      (λ e, emit (console_warn [VString "[Cavy] failed to clear AsyncStorage:"; e]))
  else mret tt.

(** The element [render] returns:
    [<TesterContext.Provider key=... value=...>child</TesterContext.Provider>] *)
Record Provider : Type := mkProvider {
  provider_key : Q;
  provider_value : value;
  provider_child : value
}.

(** React's [isValidElement] and [Children.only]. *)
Definition isValidElement (v : value) : bool :=
  match v with
  | VObject o => react_element o
  | _ => false
  end.

Definition Children_only (children : value) : prog value :=
  if isValidElement children then mret children
  else Throw (VError "Error"
    "React.Children.only expected to receive a single React element child.").

(** [render()] *)
Definition render (this : Tester) : prog Provider :=
  child ← Children_only (children (this_props this));
  mret (mkProvider (key (this_state this)) (this_testHookStore this) child).

(** [Tester.defaultProps] *)
Definition Tester_defaultProps : gmap string value :=
  {[ "clearAsyncStorage" := VBool false;
     "startDelay" := VNumber 0;
     "waitTime" := VNumber 2000 ]}.

(** ** React, as far as [Tester] relies on it *)

(** [createElement] gives a prop that is [undefined] its entry in
    [defaultProps], when there is one. *)
Definition resolve_default (defaults : gmap string value) (name : string)
    (given : value) : value :=
  match given with
  | VUndefined => default VUndefined (defaults !! name)
  | _ => given
  end.

Definition resolveDefaultProps (given : Props) : Props :=
  let d := resolve_default Tester_defaultProps in
  mkProps (d "clearAsyncStorage" (clearAsyncStorage given))
          (d "only" (only given))
          (d "reporter" (reporter given))
          (d "sendReport" (sendReport given))
          (specs given)
          (d "startDelay" (startDelay given))
          (d "store" (store given))
          (d "waitTime" (waitTime given))
          (d "children" (children given)).

(** [props.children] for the children written between the JSX tags: absent
    for none, the child itself for one, an array for more. *)
Definition jsx_children (written : list value) : value :=
  match written with
  | [] => VUndefined
  | [child] => child
  | _ => VArray written
  end.

(** A queued [setState] is merged into [this.state]; the state has the one
    property [key], so the partial state given by [reRender] replaces it. *)
Definition apply_update (this : Tester) (ev : event) : Tester :=
  match ev with
  | Emitted (setState partial) =>
      mkTester (this_props this) {| key := key partial |}
               (this_testHookStore this) (this_reporter this)
  | _ => this
  end.

Definition after_updates (this : Tester) (tr : list event) : Tester :=
  fold_left apply_update tr this.

(** React turns a key into a string and, at one position, keeps an element
    whose type and key are unchanged and remounts it otherwise.  Two finite
    numbers print alike only when they are equal. *)
Definition remounts (before after : Provider) : bool :=
  negb (Qeq_bool (provider_key before) (provider_key after)).

Section Mount.
Context {W : Type} (env : environment W).

(** [componentDidMount()]: the call [this.runTests()] runs the async
    function up to its first [await] and returns its promise, which is
    dropped; the rest of [componentDidMount] follows at once.  When a call
    made in that first stretch never returns, [this.runTests()] does not
    return either and the rest is not reached. *)
Definition componentDidMount (this : Tester) (w : W)
    : list event * W * outcome unit * status unit :=
  let '(tr1, w1, job) := run_sync env (runTests this) w in
  match job with
  | Hung => (tr1, w1, Pending, Hung)
  | _ =>
      let '(tr2, w2, o) := run env (componentDidMount_rest this) w1 in
      (tr1 ++ tr2, w2, o, job)
  end.

(** [componentDidMount] and then the job it left behind: everything the
    mounting of a [Tester] makes it do. *)
Definition mount (this : Tester) (w : W) : list event * W :=
  let '(tr, w2, _, job) := componentDidMount this w in
  let '(tr3, w3, _) := resume env job w2 in
  (tr ++ tr3, w3).

End Mount.

(** ** Reading a trace *)

(** Kinds of external calls. *)
Definition runner_call (e : eff) : bool :=
  match e with
  | New_TestRunner _ _ _ _ _ _ | runner_run _ => true
  | _ => false
  end.

Definition onStart_call (e : eff) : bool :=
  match e with
  | reporter_onStart _ => true
  | _ => false
  end.

(** The registry operations that change it. *)
Definition registry_write (e : eff) : bool :=
  match e with
  | store_register _ _ _ | store_unregister _ _ => true
  | _ => false
  end.

Definition on_call (P : eff → bool) (ev : event) : bool :=
  match ev with
  | Called e _ => P e
  | _ => false
  end.

Definition is_runner_event : event → bool := on_call runner_call.
Definition is_onStart : event → bool := on_call onStart_call.
Definition writes_registry : event → bool := on_call registry_write.

(** A program that makes no call of kind [P], whatever it is answered. *)
Fixpoint avoids {R} (P : eff → bool) (p : prog R) : Prop :=
  match p with
  | Ret _ | Throw _ => True
  | Random k => ∀ r, avoids P (k r)
  | Emit _ k => avoids P k
  | Vis e k => P e = false ∧ ∀ c, avoids P (k c)
  end.

(** What a suspended program still has to do makes no call of kind [P]. *)
Definition rest_avoids {R} (P : eff → bool) (st : status R) : Prop :=
  match st with
  | Suspended v k => avoids P (Vis (Await v) k)
  | _ => True
  end.

(** The function calls of a trace, callee and arguments, in order. *)
Definition spec_call (ev : event) : option (value * list value) :=
  match ev with
  | Called (Call f args) _ => Some (f, args)
  | _ => None
  end.

Definition spec_calls (tr : list event) : list (value * list value) :=
  omap spec_call tr.

(** The scopes [new TestScope] returned, and what it was given. *)
Definition scope_made (ev : event) : option value :=
  match ev with
  | Called (New_TestScope _ _) (Some (Normal scope)) => Some scope
  | _ => None
  end.

Definition scopes_made (tr : list event) : list value := omap scope_made tr.

Definition scope_request (ev : event) : option (Tester * value) :=
  match ev with
  | Called (New_TestScope component waitTime) _ => Some (component, waitTime)
  | _ => None
  end.

Definition scope_requests (tr : list event) : list (Tester * value) :=
  omap scope_request tr.

(** The components and the suites handed to [new TestRunner]. *)
Definition runner_request (ev : event) : option (Tester * list value) :=
  match ev with
  | Called (New_TestRunner component testSuites _ _ _ _) _ =>
      Some (component, testSuites)
  | _ => None
  end.

Definition runner_requests (tr : list event) : list (Tester * list value) :=
  omap runner_request tr.

(** One turn of the loop of [runTests] that went through: the scope is
    built, the spec is called with it and returns [promise], and the
    [await] of [promise] resumes with [result]. *)
Record turn : Type := mkTurn {
  turn_scope : value;
  turn_promise : value;
  turn_result : value
}.

Definition turn_events (this : Tester) (spec : value) (t : turn) : list event :=
  [ Called (New_TestScope this (waitTime (this_props this)))
           (Some (Normal (turn_scope t)));
    Called (Call spec [turn_scope t]) (Some (Normal (turn_promise t)));
    Called (Await (turn_promise t)) (Some (Normal (turn_result t))) ].

Fixpoint turns_events (this : Tester) (specs : list value) (ts : list turn)
    : list event :=
  match specs, ts with
  | spec :: specs', t :: ts' =>
      turn_events this spec t ++ turns_events this specs' ts'
  | _, _ => []
  end.

(** The turn that stops the loop: the scope cannot be built, or the spec is
    not callable, or its call throws or never returns, or the awaited
    promise rejects or never settles.  [None] stands for never. *)
Inductive broken_turn (this : Tester) (spec : value)
    : list event → outcome unit → Prop :=
| scope_throws e :
    broken_turn this spec
      [Called (New_TestScope this (waitTime (this_props this))) (Some (Abrupt e))]
      (Finished (Abrupt e))
| scope_hangs :
    broken_turn this spec
      [Called (New_TestScope this (waitTime (this_props this))) None]
      Pending
| spec_not_callable scope :
    is_callable spec = false →
    broken_turn this spec
      [Called (New_TestScope this (waitTime (this_props this)))
              (Some (Normal scope))]
      (Finished (Abrupt (TypeError "specs[i] is not a function")))
| spec_throws scope e :
    is_callable spec = true →
    broken_turn this spec
      [Called (New_TestScope this (waitTime (this_props this)))
              (Some (Normal scope));
       Called (Call spec [scope]) (Some (Abrupt e))]
      (Finished (Abrupt e))
| spec_hangs scope :
    is_callable spec = true →
    broken_turn this spec
      [Called (New_TestScope this (waitTime (this_props this)))
              (Some (Normal scope));
       Called (Call spec [scope]) None]
      Pending
| promise_rejects scope promise e :
    is_callable spec = true →
    broken_turn this spec
      [Called (New_TestScope this (waitTime (this_props this)))
              (Some (Normal scope));
       Called (Call spec [scope]) (Some (Normal promise));
       Called (Await promise) (Some (Abrupt e))]
      (Finished (Abrupt e))
| promise_pending scope promise :
    is_callable spec = true →
    broken_turn this spec
      [Called (New_TestScope this (waitTime (this_props this)))
              (Some (Normal scope));
       Called (Call spec [scope]) (Some (Normal promise));
       Called (Await promise) None]
      Pending.

(** How the runner part of [runTests] can go, for the suites it is given. *)
Definition new_runner (this : Tester) (testSuites : list value) : eff :=
  New_TestRunner this testSuites (startDelay (this_props this))
    (this_reporter this) (sendReport (this_props this)) (only (this_props this)).

Inductive runner_part (this : Tester) (testSuites : list value)
    : list event → outcome unit → Prop :=
| runner_started runner x :
    runner_part this testSuites
      [Called (new_runner this testSuites) (Some (Normal runner));
       Called (runner_run runner) (Some (Normal x))]
      (Finished (Normal tt))
| runner_run_throws runner e :
    runner_part this testSuites
      [Called (new_runner this testSuites) (Some (Normal runner));
       Called (runner_run runner) (Some (Abrupt e))]
      (Finished (Abrupt e))
| runner_run_hangs runner :
    runner_part this testSuites
      [Called (new_runner this testSuites) (Some (Normal runner));
       Called (runner_run runner) None]
      Pending
| runner_new_throws e :
    runner_part this testSuites
      [Called (new_runner this testSuites) (Some (Abrupt e))]
      (Finished (Abrupt e))
| runner_new_hangs :
    runner_part this testSuites
      [Called (new_runner this testSuites) None]
      Pending.

(** Every run of [runTests] is of one of two kinds. *)
Inductive runTests_run (this : Tester) : list event → outcome unit → Prop :=
| all_specs_registered ts tail o :
    length ts = length (specs (this_props this)) →
    runner_part this (turn_scope <$> ts) tail o →
    runTests_run this
      (turns_events this (specs (this_props this)) ts ++ tail) o
| stopped_at k spec ts tail o :
    specs (this_props this) !! k = Some spec →
    length ts = k →
    broken_turn this spec tail o →
    runTests_run this
      (turns_events this (take k (specs (this_props this))) ts ++ tail) o.

(** Two outcomes that fail alike, whatever they would have returned. *)
Definition same_failure {A B} (o : outcome A) (o' : outcome B) : Prop :=
  match o, o' with
  | Finished (Abrupt e), Finished (Abrupt e') => e = e'
  | Pending, Pending => True
  | _, _ => False
  end.

(** ** The reporter option and the spec loop, read at face value *)

(** An object-shaped sink in realtime mode: not a function, with the
    string [realtime] as its [type]. *)
Definition is_realtime_sink (r : value) : bool :=
  match r with
  | VObject o =>
      negb (inherits_Function o) && loose_eq_string (type_prop o) "realtime"
  | _ => false
  end.

Definition deprecation_warning : event :=
  Emitted (console_warn [VString deprecation_message]).

(** The constructor made the sink by instantiating [cls]: it asked for
    [new cls], and what came back is the sink of the component. *)
Definition instantiated {W} (cls : value)
    (r : list event * W * outcome Tester) : Prop :=
  ∃ inst this,
    Called (Construct cls) (Some (Normal inst)) ∈ trace_of r
    ∧ outcome_of r = Finished (Normal this)
    ∧ this_reporter this = inst.

(** The reading of the reporter option that takes its words at face value:
    a function is used as it is, with the warning; any other supplied value
    is instantiated; with no option the default class is. *)
Definition reporter_as_stated {W} (env : environment W) (props : Props)
    (w : W) : Prop :=
  let r := run env (Tester_constructor props) w in
  if instanceof_Function (reporter props) then
    deprecation_warning ∈ trace_of r
    ∧ ∃ this, outcome_of r = Finished (Normal this)
            ∧ this_reporter this = reporter props
  else
    match reporter props with
    | VUndefined => instantiated Reporter r
    | supplied => instantiated supplied r
    end.

(** A spec paired with the scope it is called with. *)
Definition with_scope (spec scope : value) : value * list value :=
  (spec, [scope]).

(** The reading of the spec loop that takes its words at face value: each
    spec of the list is called once, in order, with the scope built for it,
    and the runner receives those scopes. *)
Definition specs_as_stated {W} (env : environment W) (this : Tester)
    (w : W) : Prop :=
  let tr := trace_of (run env (runTests this) w) in
  spec_calls tr
    = zip_with with_scope (specs (this_props this)) (scopes_made tr)
  ∧ length (scopes_made tr) = length (specs (this_props this))
  ∧ runner_requests tr = [(this, scopes_made tr)].

(** The reading of [reRender] that takes its words at face value: the key
    is replaced by a fresh value, one that differs from the key in place,
    the subtree is remounted, and nothing else changes. *)
Definition reRender_as_stated {W} (env : environment W) (this : Tester)
    (w : W) : Prop :=
  let this' := after_updates this (trace_of (run env (reRender this) w)) in
  ¬ (key (this_state this') == key (this_state this))%Q
  ∧ (∀ before after,
       render this = Ret before → render this' = Ret after →
       remounts before after = true)
  ∧ this_props this' = this_props this
  ∧ this_testHookStore this' = this_testHookStore this
  ∧ this_reporter this' = this_reporter this.

(** ** Environments *)

(** A scripted environment gives the draws and the answers from two lists,
    in order.  A call made after the answers are used up never returns. *)
Record script : Type := mkScript {
  draws : list Q;
  answers : list (option (completion value))
}.

Definition scripted : environment script :=
  {| random := λ w,
       match draws w with
       | r :: rest => (r, mkScript rest (answers w))
       | [] => (0%Q, w)
       end;
     respond := λ _ w,
       match answers w with
       | a :: rest => (a, mkScript (draws w) rest)
       | [] => (None, w)
       end |}.

(** Some values to run the component on. *)
Definition function_at (a : nat) : value :=
  VObject (Object a true true true false PUndefined).

Definition plain_object (a : nat) (type : primitive) : value :=
  VObject (Object a false false false false type).

Definition element_at (a : nat) : value :=
  VObject (Object a false false false true PUndefined).

Definition props_with (reporter : value) (specs : list value) : Props :=
  mkProps (VBool false) VUndefined reporter VUndefined specs
          (VNumber 0) (plain_object 10 PUndefined) (VNumber 2000)
          (element_at 11).

Definition tester_with (reporter : value) (specs : list value) : Tester :=
  mkTester (props_with reporter specs) {| key := 0.25%Q |}
           (plain_object 10 PUndefined) reporter.

Definition set_children (p : Props) (children : value) : Props :=
  mkProps (clearAsyncStorage p) (only p) (reporter p) (sendReport p)
          (specs p) (startDelay p) (store p) (waitTime p) children.

Definition set_clearAsyncStorage (p : Props) (flag : value) : Props :=
  mkProps flag (only p) (reporter p) (sendReport p)
          (specs p) (startDelay p) (store p) (waitTime p) (children p).

(** Two spec functions, and a run in which both register their cases. *)
Definition spec_A : value := function_at 20.
Definition spec_B : value := function_at 21.

Definition two_specs : Tester := tester_with (function_at 30) [spec_A; spec_B].

Definition both_register : script :=
  mkScript []
    [ Some (Normal (plain_object 40 PUndefined));   (* new TestScope *)
      Some (Normal (plain_object 41 PUndefined));   (* spec_A(scope) *)
      Some (Normal VUndefined);                     (* await *)
      Some (Normal (plain_object 42 PUndefined));   (* new TestScope *)
      Some (Normal VUndefined);                     (* spec_B(scope) *)
      Some (Normal VUndefined);                     (* await *)
      Some (Normal (plain_object 43 PUndefined));   (* new TestRunner *)
      Some (Normal (plain_object 44 PUndefined)) ]. (* runner.run() *)

(** The two turns of that run, and its two runner events. *)
Definition both_turns : list turn :=
  [ mkTurn (plain_object 40 PUndefined) (plain_object 41 PUndefined) VUndefined;
    mkTurn (plain_object 42 PUndefined) VUndefined VUndefined ].

Definition runner_built : event :=
  Called (new_runner two_specs (turn_scope <$> both_turns))
         (Some (Normal (plain_object 43 PUndefined))).

Definition runner_ran : event :=
  Called (runner_run (plain_object 43 PUndefined))
         (Some (Normal (plain_object 44 PUndefined))).

(** What [render] returns for that component before any [reRender]. *)
Definition two_specs_rendered : Provider :=
  mkProvider 0.25%Q (plain_object 10 PUndefined) (element_at 11).

(** A run in which the first spec throws. *)
Definition first_throws : script :=
  mkScript []
    [ Some (Normal (plain_object 40 PUndefined));   (* new TestScope *)
      Some (Abrupt (VError "Error" "boom"));        (* spec_A(scope) *)
      Some (Normal (plain_object 42 PUndefined));
      Some (Normal VUndefined);
      Some (Normal VUndefined);
      Some (Normal (plain_object 43 PUndefined));
      Some (Normal (plain_object 44 PUndefined)) ].

(** A sink class: a function object that can be instantiated. *)
Definition reporter_class : value :=
  VObject (Object 31 true true true false PUndefined).

(** A sink object in realtime mode, handed over as the reporter option,
    and an environment in which every call would return. *)
Definition realtime_sink : value := plain_object 50 (PString "realtime").

Definition obliging : script :=
  mkScript [0.5%Q; 0.75%Q]
    (replicate 8 (Some (Normal (plain_object 60 (PString "realtime"))))).

(** An environment whose [Math.random()] returns the key in place, and one
    in which the first call never returns. *)
Definition same_draw : script := mkScript [0.25%Q] [].

Definition never_back : script := mkScript [] [None].

(** One spec and a realtime sink, mounted in an environment that answers
    every call: the scope, the promise of the spec, [onStart], the
    [await], the runner, its [run()]. *)
Definition one_spec_realtime : Tester := tester_with realtime_sink [spec_A].

Definition no_spec_realtime : Tester := tester_with realtime_sink [].

Definition mounting : script :=
  mkScript []
    [ Some (Normal (plain_object 40 PUndefined));
      Some (Normal (plain_object 41 PUndefined));
      Some (Normal VUndefined);
      Some (Normal VUndefined);
      Some (Normal (plain_object 43 PUndefined));
      Some (Normal (plain_object 44 PUndefined)) ].

(** ** A reference model of [AsyncStorage] and of the promises it returns *)

Module Storage.

(** How a call of the native module goes. *)
Inductive behaviour : Type :=
| Succeeds
| Throws (e : value)        (* the call itself throws *)
| Rejects (e : value)       (* the promise it returns rejects *)
| Never_settles.

Inductive settlement : Type :=
| Fulfilled_keys (ks : list string)
| Fulfilled (v : value)
| Rejected (e : value)
| Unsettled.

(** The items kept, the promises made so far (a promise is the object whose
    address is its index in the list, from [base] on), and how the next
    [getAllKeys] and [multiRemove] go. *)
Record world : Type := mkWorld {
  items : gmap string string;
  promises : list settlement;
  getAllKeys_goes : behaviour;
  multiRemove_goes : behaviour
}.

Definition base : nat := 100.

Definition promise_at (i : nat) : value :=
  VObject (Object (base + i)%nat false false false false PUndefined).

Definition settlement_of (w : world) (v : value) : option settlement :=
  match v with
  | VObject o =>
      if Nat.leb base (addr o) then promises w !! (addr o - base)%nat else None
  | _ => None
  end.

(** A new promise with the given settlement. *)
Definition make_promise (w : world) (s : settlement) : value * world :=
  (promise_at (length (promises w)),
   mkWorld (items w) (promises w ++ [s]) (getAllKeys_goes w)
           (multiRemove_goes w)).

Definition keys_of (m : gmap string string) : list string :=
  (map_to_list m).*1.

Definition remove_all (ks : list string) (m : gmap string string)
    : gmap string string :=
  foldr delete m ks.

Definition with_items (w : world) (m : gmap string string) : world :=
  mkWorld m (promises w) (getAllKeys_goes w) (multiRemove_goes w).

Definition is_multiRemove (f : value) : bool :=
  match f with
  | VObject o => Nat.eqb (addr o) 2
  | _ => false
  end.

(** [AsyncStorage.getAllKeys()] *)
Definition getAllKeys (w : world) : option (completion value) * world :=
  match getAllKeys_goes w with
  | Throws e => (Some (Abrupt e), w)
  | Succeeds =>
      let '(p, w1) := make_promise w (Fulfilled_keys (keys_of (items w))) in
      (Some (Normal p), w1)
  | Rejects e =>
      let '(p, w1) := make_promise w (Rejected e) in (Some (Normal p), w1)
  | Never_settles =>
      let '(p, w1) := make_promise w Unsettled in (Some (Normal p), w1)
  end.

(** [AsyncStorage.multiRemove(keys)], as the reaction of a promise. *)
Definition multiRemove (ks : list string) (w : world) : settlement * world :=
  match multiRemove_goes w with
  | Succeeds => (Fulfilled VUndefined, with_items w (remove_all ks (items w)))
  | Throws e | Rejects e => (Rejected e, w)
  | Never_settles => (Unsettled, w)
  end.

(** [p.then(f)] for the one reaction this file passes, [multiRemove]; the
    reaction is run as soon as it is attached, which a caller that awaits
    the new promise at once cannot tell from a later job. *)
Definition then_ (p f : value) (w : world) : option (completion value) * world :=
  match settlement_of w p with
  | None => (Some (Abrupt (TypeError "then is not a function")), w)
  | Some s =>
      let '(s', w1) :=
        match s with
        | Fulfilled_keys ks =>
            if is_multiRemove f then multiRemove ks w
            else (Fulfilled_keys ks, w)
        | other => (other, w)
        end in
      let '(q, w2) := make_promise w1 s' in
      (Some (Normal q), w2)
  end.

(** [await v] *)
Definition await (v : value) (w : world) : option (completion value) * world :=
  match settlement_of w v with
  | None => (Some (Normal v), w)
  | Some (Fulfilled_keys ks) => (Some (Normal (VArray (VPrim ∘ PString <$> ks))), w)
  | Some (Fulfilled x) => (Some (Normal x), w)
  | Some (Rejected e) => (Some (Abrupt e), w)
  | Some Unsettled => (None, w)
  end.

Definition env : environment world :=
  {| random := λ w, (0%Q, w);
     respond := λ e w,
       match e with
       | AsyncStorage_getAllKeys => getAllKeys w
       | promise_then p f => then_ p f w
       | Await v => await v w
       | _ => (Some (Normal VUndefined), w)
       end |}.

(** A store in working order, with its items and the promises it has made
    so far. *)
Definition healthy (m : gmap string string) (made : list settlement) : world :=
  mkWorld m made Succeeds Succeeds.

End Storage.

(** A store with two items, and the same store when [getAllKeys] rejects. *)
Definition two_items : gmap string string :=
  {[ "token" := "abc"; "theme" := "dark" ]}.

Definition storage_down : Storage.world :=
  Storage.mkWorld two_items [] (Storage.Rejects (VError "Error" "disk"))
                  Storage.Succeeds.

Definition clearing : Tester :=
  mkTester (set_clearAsyncStorage (props_with VUndefined []) (VBool true))
           {| key := 0.25%Q |} (plain_object 10 PUndefined) VUndefined.

(** The warning [clearAsync] logs for the error [e]. *)
Definition clear_warning (e : value) : event :=
  Emitted (console_warn [VString "[Cavy] failed to clear AsyncStorage:"; e]).

(** The runs of [clearAsync] when the flag is set. *)
Inductive clearing_run : list event → outcome unit → Prop :=
| cleared p q v :
    clearing_run
      [Called AsyncStorage_getAllKeys (Some (Normal p));
       Called (promise_then p AsyncStorage_multiRemove) (Some (Normal q));
       Called (Await q) (Some (Normal v))]
      (Finished (Normal tt))
| getAllKeys_throws e :
    clearing_run
      [Called AsyncStorage_getAllKeys (Some (Abrupt e)); clear_warning e]
      (Finished (Normal tt))
| then_throws p e :
    clearing_run
      [Called AsyncStorage_getAllKeys (Some (Normal p));
       Called (promise_then p AsyncStorage_multiRemove) (Some (Abrupt e));
       clear_warning e]
      (Finished (Normal tt))
| removal_rejects p q e :
    clearing_run
      [Called AsyncStorage_getAllKeys (Some (Normal p));
       Called (promise_then p AsyncStorage_multiRemove) (Some (Normal q));
       Called (Await q) (Some (Abrupt e));
       clear_warning e]
      (Finished (Normal tt))
| getAllKeys_hangs :
    clearing_run [Called AsyncStorage_getAllKeys None] Pending
| then_hangs p :
    clearing_run
      [Called AsyncStorage_getAllKeys (Some (Normal p));
       Called (promise_then p AsyncStorage_multiRemove) None]
      Pending
| removal_pending p q :
    clearing_run
      [Called AsyncStorage_getAllKeys (Some (Normal p));
       Called (promise_then p AsyncStorage_multiRemove) (Some (Normal q));
       Called (Await q) None]
      Pending.

(** ** The Scheduler and its Report *)

Module Scheduler.

(** Modelled from the spec: the status of a Test Run Result (section 3);
    [TestRunner.js], which produces the results, is not among the sources. *)
Inductive Status : Type :=
| Passed
| Failed (error : string)
| TimedOut (elapsed : nat)
| Skipped.

(** Modelled from the spec: what the promise of a case body does, for the
    race of section 4.4 step 4b; the bodies are user code that the missing
    [TestRunner.js] would call.  Times are in milliseconds. *)
Inductive behaviour : Type :=
| Resolves (after : nat)
| Rejects (after : nat) (error : string)
| Never_settles.

(** Modelled from the spec: a Test Case (section 3), a description and a
    body, declared through the missing [TestScope.js]. *)
Record TestCase : Type := mkCase {
  description : string;
  body : behaviour
}.

(** Modelled from the spec: a Test Run Result (section 3), made by the
    missing [TestRunner.js]. *)
Record TestRunResult : Type := mkResult {
  result_description : string;
  suiteIndex : nat;
  caseIndex : nat;
  status : Status;
  durationMs : nat
}.

(** Modelled from the spec: the Report (section 3), with the three counts
    it lists; assembled by the missing [TestRunner.js]. *)
Record Report : Type := mkReport {
  results : list TestRunResult;
  totalCount : nat;
  passedCount : nat;
  failedCount : nat
}.

(** Modelled from the spec: step 2 of the algorithm of section 4.4 (missing
    [TestRunner.js]), all cases in one ordered sequence, each tagged with
    its scope and its index. *)
Definition flatten (suites : list (list TestCase))
    : list (nat * nat * TestCase) :=
  concat (imap (λ i cases, imap (λ j c, (i, j, c)) cases) suites).

(** Modelled from the spec: the [only] filter of step 3 (missing
    [TestRunner.js]), a set of names or substrings of descriptions; with no
    filter every case is kept. *)
Definition selected (only : option (list string)) (c : TestCase) : bool :=
  match only with
  | None => true
  | Some names =>
      existsb (λ name, bool_decide (is_Some (String.index 0 name (description c))))
              names
  end.

(** Modelled from the spec: the race of step 4b (missing [TestRunner.js]);
    the body wins when it settles within the bound. *)
Definition race (bound : nat) (b : behaviour) : Status * nat :=
  match b with
  | Resolves t => if Nat.leb t bound then (Passed, t) else (TimedOut bound, bound)
  | Rejects t e => if Nat.leb t bound then (Failed e, t) else (TimedOut bound, bound)
  | Never_settles => (TimedOut bound, bound)
  end.

(** Modelled from the spec: steps 3 and 4 for one case (missing
    [TestRunner.js]): a case the filter drops is reported as skipped. *)
Definition run_case (only : option (list string)) (bound : nat)
    (c : nat * nat * TestCase) : TestRunResult :=
  let '(i, j, case) := c in
  if selected only case then
    let '(st, d) := race bound (body case) in
    mkResult (description case) i j st d
  else mkResult (description case) i j Skipped 0.

Definition has_status (p : Status → bool) (rs : list TestRunResult) : nat :=
  length (filter (λ r, p (status r) = true) rs).

Definition is_passed (s : Status) : bool :=
  match s with Passed => true | _ => false end.
Definition is_failed (s : Status) : bool :=
  match s with Failed _ => true | _ => false end.
Definition is_timed_out (s : Status) : bool :=
  match s with TimedOut _ => true | _ => false end.
Definition is_skipped (s : Status) : bool :=
  match s with Skipped => true | _ => false end.

(** Modelled from the spec: [run()] of section 4.4 (missing
    [TestRunner.js]), from the flattening to the Report of step 5.  The
    total counts every declared case (step 3); the startup delay of step 1
    and the inter-case reset of step 4a leave no mark on the Report. *)
Definition run (suites : list (list TestCase)) (only : option (list string))
    (bound : nat) : Report :=
  let rs := run_case only bound <$> flatten suites in
  mkReport rs (length (flatten suites))
           (has_status is_passed rs) (has_status is_failed rs).

(** Modelled from the spec: the two counts that section 8 names and the
    Report of section 3 does not list, read off the results. *)
Definition timedOutCount (r : Report) : nat :=
  has_status is_timed_out (results r).

Definition skippedCount (r : Report) : nat :=
  has_status is_skipped (results r).

(** The scenario of section 8: spec A declares [passes] and [fails], spec B
    declares [slow], which resolves one millisecond after the bound. *)
Definition scenario : list (list TestCase) :=
  [ [mkCase "passes" (Resolves 5); mkCase "fails" (Rejects 5 "x")];
    [mkCase "slow" (Resolves 2001)] ].

End Scheduler.

(** A call that came back with a value. *)
Definition came_back (ev : event) : bool :=
  match ev with
  | Called _ (Some (Normal _)) => true
  | Called _ _ => false
  | _ => true
  end.

(** ** More readings of a trace *)

(** The operand of an [await], and the value a function call returned. *)
Definition awaited (ev : event) : option value :=
  match ev with
  | Called (Await v) _ => Some v
  | _ => None
  end.

Definition returned (ev : event) : option value :=
  match ev with
  | Called (Call _ _) (Some (Normal v)) => Some v
  | _ => None
  end.

(** The value an [await] resumed with. *)
Definition resumed (ev : event) : option value :=
  match ev with
  | Called (Await _) (Some (Normal x)) => Some x
  | _ => None
  end.

Definition is_spec_call (ev : event) : bool :=
  match ev with
  | Called (Call _ _) _ => true
  | _ => false
  end.

Definition drawn (ev : event) : option Q :=
  match ev with
  | Drew r => Some r
  | _ => None
  end.

Definition warning (ev : event) : option (list value) :=
  match ev with
  | Emitted (console_warn args) => Some args
  | _ => None
  end.

Definition is_state_update (ev : event) : bool :=
  match ev with
  | Emitted (setState _) => true
  | _ => false
  end.

(** How the last event of a run of [runTests] goes with its outcome. *)
Definition ends_with (ev : event) (o : outcome unit) : Prop :=
  match o with
  | Finished (Normal _) =>
      ∃ runner x, ev = Called (runner_run runner) (Some (Normal x))
  | Finished (Abrupt e) =>
      (∃ c, ev = Called c (Some (Abrupt e)))
      ∨ (e = TypeError "specs[i] is not a function"
         ∧ ∃ this wt scope,
             ev = Called (New_TestScope this wt) (Some (Normal scope)))
  | Pending => ∃ c, ev = Called c None
  end.

(** [reRender()] called [n] times in a row. *)
Fixpoint reRender_times (this : Tester) (n : nat) : prog unit :=
  match n with
  | O => mret tt
  | S n' => reRender this;; reRender_times this n'
  end.

(** Inputs for the statements on [runTests]: a spec list with an entry that
    is not a function, and the run in which the second spec is about to be
    called. *)
Definition not_a_function : value := plain_object 22 PUndefined.

Definition with_a_stray : Tester :=
  tester_with (function_at 30) [spec_A; not_a_function; spec_B].

Definition spec_B_called : event :=
  Called (Call spec_B [plain_object 42 PUndefined]) (Some (Normal VUndefined)).

Definition before_spec_B : list event :=
  [ Called (New_TestScope two_specs (VNumber 2000))
           (Some (Normal (plain_object 40 PUndefined)));
    Called (Call spec_A [plain_object 40 PUndefined])
           (Some (Normal (plain_object 41 PUndefined)));
    Called (Await (plain_object 41 PUndefined)) (Some (Normal VUndefined));
    Called (New_TestScope two_specs (VNumber 2000))
           (Some (Normal (plain_object 42 PUndefined))) ].

Definition after_spec_B : list event :=
  [ Called (Await VUndefined) (Some (Normal VUndefined));
    runner_built; runner_ran ].

(** The reporter handed to [new TestRunner]. *)
Definition runner_reporter (ev : event) : option value :=
  match ev with
  | Called (New_TestRunner _ _ _ reporter _ _) _ => Some reporter
  | _ => None
  end.

(** A store whose [getAllKeys] fails with [e], by throwing or by rejecting. *)
Definition storage_failing (m : gmap string string)
    (made : list Storage.settlement) (how : Storage.behaviour) : Storage.world :=
  Storage.mkWorld m made how Storage.Succeeds.

(** * Theorems *)

(** ** Runs of composed programs *)

Section RunFacts.
Context {W : Type} (env : environment W).

Lemma run_bind {A B} (m : prog A) (f : A → prog B) (w : W) :
  run env (bind m f) w =
  let '(tr, w1, o) := run env m w in
  match o with
  | Finished (Normal a) =>
      let '(tr2, w2, o2) := run env (f a) w1 in (tr ++ tr2, w2, o2)
  | Finished (Abrupt e) => (tr, w1, Finished (Abrupt e))
  | Pending => (tr, w1, Pending)
  end.
Proof.
  revert w. induction m as [a|e|k IH|o k IH|e k IH]; intros w; simpl.
  - destruct (run env (f a) w) as [[tr2 w2] o2]. reflexivity.
  - reflexivity.
  - destruct (random env w) as [r w1]. rewrite IH.
    destruct (run env (k r) w1) as [[tr w2] o].
    destruct o as [[a|x]|]; [|reflexivity..].
    destruct (run env (f a) w2) as [[tr2 w3] o2]. reflexivity.
  - rewrite IH. destruct (run env k w) as [[tr w1] res].
    destruct res as [[a|x]|]; [|reflexivity..].
    destruct (run env (f a) w1) as [[tr2 w2] o2]. reflexivity.
  - destruct (respond env e w) as [[c|] w1]; [|reflexivity].
    rewrite IH. destruct (run env (k c) w1) as [[tr w2] o].
    destruct o as [[a|x]|]; [|reflexivity..].
    destruct (run env (f a) w2) as [[tr2 w3] o2]. reflexivity.
Qed.

Lemma run_call (e : eff) (w : W) :
  run env (call e) w =
  match respond env e w with
  | (None, w1) => ([Called e None], w1, Pending)
  | (Some (Normal v), w1) =>
      ([Called e (Some (Normal v))], w1, Finished (Normal v))
  | (Some (Abrupt x), w1) =>
      ([Called e (Some (Abrupt x))], w1, Finished (Abrupt x))
  end.
Proof.
  unfold call. simpl. destruct (respond env e w) as [[[v|x]|] w1]; reflexivity.
Qed.

End RunFacts.

(** ** Executions *)

Section Executions.
Context {W : Type} (env : environment W).

Lemma run_exec {R} (p : prog R) (w : W) :
  exec p (trace_of (run env p w)) (outcome_of (run env p w)).
Proof.
  unfold trace_of, outcome_of. revert w.
  induction p as [a|e|k IH|o k IH|e k IH]; intros w; simpl.
  - constructor.
  - constructor.
  - destruct (random env w) as [r w1]. specialize (IH r w1).
    destruct (run env (k r) w1) as [[tr w2] o]. by constructor.
  - specialize (IH w). destruct (run env k w) as [[tr w1] res].
    by constructor.
  - destruct (respond env e w) as [[c|] w1]; [|constructor].
    specialize (IH c w1).
    destruct (run env (k c) w1) as [[tr w2] o]. by constructor.
Qed.

(** A stretch run now and its rest run later, in whatever state the
    environment is by then, make up one execution. *)
Lemma run_sync_exec {R} (p : prog R) (w w' : W) :
  exec p ((run_sync env p w).1.1 ++ trace_of (resume env (run_sync env p w).2 w'))
         (outcome_of (resume env (run_sync env p w).2 w')).
Proof.
  revert w.
  induction p as [a|e|k IH|o k IH|e k IH]; intros w; simpl.
  - constructor.
  - constructor.
  - destruct (random env w) as [r w1]. specialize (IH r w1).
    destruct (run_sync env (k r) w1) as [[tr w2] st]. by constructor.
  - specialize (IH w). destruct (run_sync env k w) as [[tr w1] st].
    by constructor.
  - assert (∀ x : list event * W * status R,
      x = match respond env e w with
          | (None, w1) => ([Called e None], w1, Hung)
          | (Some c, w1) =>
              let '(tr, w2, st) := run_sync env (k c) w1 in
              (Called e (Some c) :: tr, w2, st)
          end →
      exec (Vis e k) (x.1.1 ++ trace_of (resume env x.2 w'))
                     (outcome_of (resume env x.2 w'))) as Hgen.
    { intros x ->. destruct (respond env e w) as [[c|] w1].
      - specialize (IH c w1).
        destruct (run_sync env (k c) w1) as [[tr w2] st]. by constructor.
      - constructor. }
    destruct e; try (by apply Hgen).
    apply (run_exec (Vis (Await v) k) w').
Qed.

End Executions.

(** Every execution is a run in the scripted environment. *)
Lemma exec_scripted {R} (p : prog R) (tr : list event) (o : outcome R) :
  exec p tr o →
  ∃ s, trace_of (run scripted p s) = tr ∧ outcome_of (run scripted p s) = o.
Proof.
  unfold trace_of, outcome_of.
  induction 1 as [r|e|k r tr o _ IH|out k tr o _ IH|e k c tr o _ IH|e k].
  - by exists (mkScript [] []).
  - by exists (mkScript [] []).
  - destruct IH as ([ds ans] & Htr & Ho).
    exists (mkScript (r :: ds) ans). simpl.
    destruct (run scripted (k r) (mkScript ds ans)) as [[tr' w2] o'].
    simpl in *. by subst.
  - destruct IH as (s & Htr & Ho). exists s. simpl.
    destruct (run scripted k s) as [[tr' w2] o']. simpl in *. by subst.
  - destruct IH as ([ds ans] & Htr & Ho).
    exists (mkScript ds (Some c :: ans)). simpl.
    destruct (run scripted (k c) (mkScript ds ans)) as [[tr' w2] o'].
    simpl in *. by subst.
  - by exists (mkScript [] [None]).
Qed.

(** ** The runs of [runTests] *)

Section RunTests.
Context {W : Type} (env : environment W).

Local Ltac stop_here tac :=
  right; exists 0; eexists; exists []; do 2 eexists;
  split_and!; [reflexivity | reflexivity | tac | reflexivity | done].

Lemma runTests_loop_run (this : Tester) (specs : list value) :
  ∀ (testSuites : list value) (w w' : W) tr o,
  run env (runTests_loop this (waitTime (this_props this)) specs testSuites) w
    = (tr, w', o) →
  (∃ ts, length ts = length specs
       ∧ tr = turns_events this specs ts
       ∧ o = Finished (Normal (testSuites ++ (turn_scope <$> ts))))
  ∨ (∃ k spec ts tail o', specs !! k = Some spec
       ∧ length ts = k
       ∧ broken_turn this spec tail o'
       ∧ tr = turns_events this (take k specs) ts ++ tail
       ∧ same_failure o o').
Proof.
  induction specs as [|spec rest IH]; intros testSuites w w' tr o Hrun.
  - simpl in Hrun. simplify_eq. left. exists []. simpl.
    by rewrite app_nil_r.
  - cbn [runTests_loop] in Hrun. unfold mbind, prog_bind in Hrun.
    rewrite run_bind, run_call in Hrun.
    set (wt := waitTime (this_props this)) in *.
    destruct (respond env (New_TestScope this wt) w) as [[[scope|e]|] w1];
      simplify_eq.
    2:{ stop_here ltac:(apply scope_throws). }
    2:{ stop_here ltac:(apply scope_hangs). }
    rewrite run_bind in Hrun. unfold js_call in Hrun.
    destruct (is_callable spec) eqn:Hc.
    2:{ simpl in Hrun. simplify_eq. stop_here ltac:(by apply spec_not_callable). }
    rewrite run_call in Hrun.
    destruct (respond env (Call spec [scope]) w1) as [[[promise|e]|] w2];
      simplify_eq.
    2:{ stop_here ltac:(by apply spec_throws). }
    2:{ stop_here ltac:(by apply spec_hangs). }
    rewrite run_bind, run_call in Hrun.
    destruct (respond env (Await promise) w2) as [[[result|e]|] w3];
      simplify_eq.
    2:{ stop_here ltac:(by apply promise_rejects). }
    2:{ stop_here ltac:(by apply promise_pending). }
    destruct (run env (runTests_loop this wt rest (testSuites ++ [scope])) w3)
      as [[tr' w4] o'] eqn:Hrest.
    simplify_eq.
    apply IH in Hrest
      as [(ts & Hlen & Htr & Ho)|(k & s & ts & tail & o'' & Hk & Hlen & Hb & Htr & Ho)].
    + left. exists (mkTurn scope promise result :: ts). simpl.
      split_and!; [by rewrite Hlen|by rewrite Htr|].
      rewrite Ho, <- app_assoc. reflexivity.
    + right. exists (S k), s, (mkTurn scope promise result :: ts), tail, o''.
      simpl. split_and!; [done|by rewrite Hlen|done|by rewrite Htr|done].
Qed.

Lemma runTests_sound (this : Tester) (w : W) :
  runTests_run this (trace_of (run env (runTests this) w))
                    (outcome_of (run env (runTests this) w)).
Proof.
  destruct (run env (runTests this) w) as [[tr w'] o] eqn:Hrun.
  unfold trace_of, outcome_of. simpl.
  unfold runTests, mbind, prog_bind in Hrun. rewrite run_bind in Hrun.
  destruct (run env (runTests_loop this (waitTime (this_props this))
              (specs (this_props this)) []) w) as [[tr1 w1] o1] eqn:Hloop.
  apply runTests_loop_run in Hloop
    as [(ts & Hlen & Htr & Ho)|(k & s & ts & tail & o' & Hk & Hlen & Hb & Htr & Ho)].
  - subst o1 tr1. cbv beta iota zeta in Hrun.
    rewrite app_nil_l, run_bind, run_call in Hrun.
    fold (new_runner this (turn_scope <$> ts)) in Hrun.
    destruct (respond env (new_runner this (turn_scope <$> ts)) w1)
      as [[[runner|e]|] w2]; cbv beta iota zeta in Hrun.
    + rewrite run_bind, run_call in Hrun.
      destruct (respond env (runner_run runner) w2) as [[[x|e]|] w3];
        simpl in Hrun; simplify_eq;
        apply all_specs_registered; try done; constructor.
    + simplify_eq. apply all_specs_registered; try done; constructor.
    + simplify_eq. apply all_specs_registered; try done; constructor.
  - subst tr1. destruct o1 as [[a|e]|], o' as [[[]|e']|]; simpl in Ho; try done;
      simplify_eq; by eapply stopped_at.
Qed.

End RunTests.

(** ** Where the runner stands in a run of [runTests] *)

Lemma turn_events_no_runner (this : Tester) (spec : value) (t : turn) :
  Forall (λ ev, is_runner_event ev = false) (turn_events this spec t).
Proof. repeat constructor. Qed.

Lemma turns_events_no_runner (this : Tester) (specs : list value) :
  ∀ ts, Forall (λ ev, is_runner_event ev = false) (turns_events this specs ts).
Proof.
  induction specs as [|spec rest IH]; intros [|t ts]; simpl;
    try apply Forall_nil_2.
  repeat (apply Forall_cons_2; [reflexivity|]). apply IH.
Qed.

Lemma broken_turn_no_runner (this : Tester) (spec : value) tail o :
  broken_turn this spec tail o →
  Forall (λ ev, is_runner_event ev = false) tail.
Proof. intros H. inversion H; repeat constructor. Qed.

(** An event with a property that no event of [pre] has lies beyond [pre]. *)
Lemma split_beyond {A} (P : A → bool) (pre suf before after : list A) (x : A) :
  pre ++ suf = before ++ x :: after →
  Forall (λ y, P y = false) pre →
  P x = true →
  ∃ rest, before = pre ++ rest ∧ suf = rest ++ x :: after.
Proof.
  revert before. induction pre as [|y pre IH]; intros before Heq Hpre Hx.
  - exists before. auto.
  - apply Forall_cons in Hpre as [Hy Hpre].
    destruct before as [|b before]; simpl in Heq; simplify_eq.
    + congruence.
    + destruct (IH before H0 Hpre Hx) as (rest & -> & ->).
      exists rest. auto.
Qed.

Lemma runner_after_turns (this : Tester) (tr before after : list event)
    (o : outcome unit) (ev : event) :
  runTests_run this tr o →
  tr = before ++ ev :: after →
  is_runner_event ev = true →
  ∃ ts rest,
    length ts = length (specs (this_props this))
    ∧ before = turns_events this (specs (this_props this)) ts ++ rest
    ∧ ((rest = [] ∧ ∃ a, ev = Called (new_runner this (turn_scope <$> ts)) a)
       ∨ (∃ runner a,
            rest = [Called (new_runner this (turn_scope <$> ts))
                           (Some (Normal runner))]
            ∧ ev = Called (runner_run runner) a)).
Proof.
  intros Hrun Htr Hev.
  destruct Hrun as [ts tail o Hlen Hpart|k spec ts tail o Hk Hlen Hbroken].
  - apply (split_beyond is_runner_event) in Htr
      as (rest & -> & Htail); [|apply turns_events_no_runner|done].
    exists ts, rest. split_and!; [done..|].
    destruct Hpart; destruct rest as [|? [|? [|? ?]]];
      simpl in Htail; simplify_eq; eauto 8.
  - exfalso.
    assert (Forall (λ ev, is_runner_event ev = false) (before ++ ev :: after))
      as Hall.
    { rewrite <- Htr. apply Forall_app. split.
      - apply turns_events_no_runner.
      - by eapply broken_turn_no_runner. }
    apply Forall_app in Hall as [_ Hall].
    apply Forall_cons in Hall as [Hno _]. congruence.
Qed.

(** C1. In every run of [runTests], whatever the environment answers, an
    event of the test runner (its construction or its [run()]) comes after
    the complete sequence of turns of the loop: for each spec function of
    the [specs] option, in order, its scope was built, the spec was called
    and returned, and the [await] of what it returned resumed.  The
    construction of the runner follows these turns at once, and [run()]
    follows the construction; cases are executed by the runner only, so
    none begins before every spec has registered its cases. *)
Theorem C1_specs_registered_before_runner {W} (env : environment W)
    (this : Tester) (w : W) (before after : list event) (ev : event) :
  trace_of (run env (runTests this) w) = before ++ ev :: after →
  is_runner_event ev = true →
  ∃ ts rest,
    length ts = length (specs (this_props this))
    ∧ before = turns_events this (specs (this_props this)) ts ++ rest
    ∧ ((rest = [] ∧ ∃ a, ev = Called (new_runner this (turn_scope <$> ts)) a)
       ∨ (∃ runner a,
            rest = [Called (new_runner this (turn_scope <$> ts))
                           (Some (Normal runner))]
            ∧ ev = Called (runner_run runner) a)).
Proof.
  intros Htr Hev.
  eapply runner_after_turns; [apply (runTests_sound env this w)|done..].
Qed.

Lemma C1_witness :
  (trace_of (run scripted (runTests two_specs) both_register)
     = turns_events two_specs [spec_A; spec_B] both_turns
       ++ runner_built :: [runner_ran]
   ∧ is_runner_event runner_built = true)
  ∧ ∃ ts rest,
      length ts = length (specs (this_props two_specs))
      ∧ turns_events two_specs [spec_A; spec_B] both_turns
        = turns_events two_specs (specs (this_props two_specs)) ts ++ rest
      ∧ ((rest = []
          ∧ ∃ a, runner_built
                 = Called (new_runner two_specs (turn_scope <$> ts)) a)
         ∨ (∃ runner a,
              rest = [Called (new_runner two_specs (turn_scope <$> ts))
                             (Some (Normal runner))]
              ∧ runner_built = Called (runner_run runner) a)).
Proof.
  assert (trace_of (run scripted (runTests two_specs) both_register)
          = turns_events two_specs [spec_A; spec_B] both_turns
            ++ runner_built :: [runner_ran]) as Htrace by reflexivity.
  assert (is_runner_event runner_built = true) as Hrunner by reflexivity.
  split; [by split|].
  exact (C1_specs_registered_before_runner scripted two_specs both_register
           _ _ _ Htrace Hrunner).
Defined.


(** ** What a run of [runTests] calls, and with what *)

Lemma turns_events_read (this : Tester) (specs : list value) :
  ∀ ts, length ts = length specs →
  spec_calls (turns_events this specs ts)
    = zip_with with_scope specs (turn_scope <$> ts)
  ∧ scopes_made (turns_events this specs ts) = turn_scope <$> ts
  ∧ Forall (λ req, req = (this, waitTime (this_props this)))
           (scope_requests (turns_events this specs ts))
  ∧ runner_requests (turns_events this specs ts) = [].
Proof.
  induction specs as [|spec rest IH]; intros [|t ts] Hlen;
    simpl in Hlen; try discriminate.
  - by repeat split.
  - injection Hlen as Hlen.
    destruct (IH ts Hlen) as (Hcalls & Hscopes & Hreq & Hrun).
    unfold spec_calls, scopes_made, scope_requests, runner_requests in *.
    cbn [turns_events]. rewrite !omap_app, Hcalls, Hscopes, Hrun.
    split_and!; [done|done|by apply Forall_app; split; [repeat constructor|]|done].
Qed.

Lemma runner_part_read (this : Tester) (suites : list value) tail o :
  runner_part this suites tail o →
  spec_calls tail = [] ∧ scopes_made tail = [] ∧ scope_requests tail = []
  ∧ runner_requests tail = [(this, suites)]
  ∧ (forallb came_back tail = true → o = Finished (Normal tt)).
Proof. intros H. destruct H; by repeat split. Qed.

Lemma broken_turn_read (this : Tester) (spec : value) tail o :
  broken_turn this spec tail o →
  (spec_calls tail = [] ∨ ∃ scope, spec_calls tail = [(spec, [scope])]
                                  ∧ scopes_made tail = [scope])
  ∧ (scopes_made tail = [] ∨ ∃ scope, scopes_made tail = [scope])
  ∧ Forall (λ req, req = (this, waitTime (this_props this)))
           (scope_requests tail)
  ∧ runner_requests tail = []
  ∧ o ≠ Finished (Normal tt)
  ∧ (forallb came_back tail = true → is_callable spec = false).
Proof.
  intros H. destruct H; simpl;
    (split_and!; [eauto|eauto|by repeat constructor|done|done|done]).
Qed.


(** ** Programs that avoid a kind of call *)

Section Avoiding.
Context {W : Type} (env : environment W) (P : eff → bool).

Lemma avoids_bind {A B} (m : prog A) (f : A → prog B) :
  avoids P m → (∀ a, avoids P (f a)) → avoids P (bind m f).
Proof.
  intros Hm Hf. induction m as [a|e|k IH|o k IH|e k IH]; simpl in *; auto.
  destruct Hm as [He Hk]. auto.
Qed.

Lemma avoids_try_catch {A} (body : prog A) (handler : value → prog A) :
  avoids P body → (∀ e, avoids P (handler e)) →
  avoids P (try_catch body handler).
Proof.
  intros Hm Hf. induction body as [a|e|k IH|o k IH|e k IH]; simpl in *; auto.
  destruct Hm as [He Hk]. auto.
Qed.

Lemma avoids_call (e : eff) : P e = false → avoids P (call e).
Proof. intros He. split; [done|]. by intros [v|x]. Qed.

Lemma run_avoids {R} (p : prog R) :
  avoids P p → ∀ w, Forall (λ ev, on_call P ev = false) (trace_of (run env p w)).
Proof.
  unfold trace_of.
  induction p as [a|e|k IH|o k IH|e k IH]; simpl; intros Hp w.
  - constructor.
  - constructor.
  - destruct (random env w) as [r w1]. specialize (IH r (Hp r) w1).
    destruct (run env (k r) w1) as [[tr w2] o]. by constructor.
  - specialize (IH Hp w). destruct (run env k w) as [[tr w1] res].
    by constructor.
  - destruct Hp as [He Hk].
    destruct (respond env e w) as [[c|] w1]; [|by repeat constructor].
    specialize (IH c (Hk c) w1).
    destruct (run env (k c) w1) as [[tr w2] o]. by constructor.
Qed.

Lemma run_sync_avoids {R} (p : prog R) :
  avoids P p → ∀ w,
  Forall (λ ev, on_call P ev = false) (run_sync env p w).1.1
  ∧ rest_avoids P (run_sync env p w).2.
Proof.
  induction p as [a|e|k IH|o k IH|e k IH]; simpl; intros Hp w.
  - by split.
  - by split.
  - destruct (random env w) as [r w1]. specialize (IH r (Hp r) w1).
    destruct (run_sync env (k r) w1) as [[tr w2] o].
    destruct IH. split; [by constructor|done].
  - specialize (IH Hp w). destruct (run_sync env k w) as [[tr w1] res].
    destruct IH. split; [by constructor|done].
  - destruct Hp as [He Hk].
    assert (∀ x : list event * W * status R,
      x = match respond env e w with
          | (None, w1) => ([Called e None], w1, Hung)
          | (Some c, w1) =>
              let '(tr, w2, st) := run_sync env (k c) w1 in
              (Called e (Some c) :: tr, w2, st)
          end →
      Forall (λ ev, on_call P ev = false) x.1.1 ∧ rest_avoids P x.2) as Hgen.
    { intros x ->. destruct (respond env e w) as [[c|] w1].
      - specialize (IH c (Hk c) w1).
        destruct (run_sync env (k c) w1) as [[tr w2] st].
        destruct IH. split; [by constructor|done].
      - split; [by repeat constructor|done]. }
    destruct e; try (by apply Hgen).
    simpl. split; [constructor|]. by split.
Qed.

Lemma resume_avoids {R} (st : status R) (w : W) :
  rest_avoids P st →
  Forall (λ ev, on_call P ev = false) (trace_of (resume env st w)).
Proof.
  destruct st as [c|v k|]; intros Hst; try constructor.
  by apply run_avoids.
Qed.

End Avoiding.

(** ** [clearAsync] *)

Lemma clearAsync_run {W} (env : environment W) (this : Tester) (w : W) :
  truthy (clearAsyncStorage (this_props this)) = true →
  clearing_run (trace_of (run env (clearAsync this) w))
               (outcome_of (run env (clearAsync this) w)).
Proof.
  intros Hflag. unfold clearAsync, trace_of, outcome_of. rewrite Hflag.
  simpl.
  destruct (respond env AsyncStorage_getAllKeys w) as [[[p|e]|] w1]; simpl;
    [|constructor..].
  destruct (respond env (promise_then p AsyncStorage_multiRemove) w1)
    as [[[q|e]|] w2]; simpl; [|constructor..].
  destruct (respond env (Await q) w2) as [[[v|e]|] w3]; simpl; constructor.
Qed.

Lemma clearing_run_never_throws tr o e :
  clearing_run tr o → o ≠ Finished (Abrupt e).
Proof. intros H. by destruct H. Qed.

Lemma remove_all_lookup (ks : list string) (m : gmap string string) (k : string) :
  Storage.remove_all ks m !! k = if decide (k ∈ ks) then None else m !! k.
Proof.
  unfold Storage.remove_all.
  induction ks as [|a ks IH]; cbn [foldr].
  - case_decide as H; [|done]. by apply elem_of_nil in H.
  - rewrite lookup_delete, IH.
    destruct (decide (a = k)) as [->|Hne].
    + rewrite decide_True by apply list_elem_of_here. done.
    + destruct (decide (k ∈ ks)) as [Hin|Hout].
      * rewrite decide_True by (by apply list_elem_of_further). done.
      * rewrite decide_False; [done|].
        intros Hin. apply elem_of_cons in Hin as [->|Hin]; done.
Qed.

Lemma remove_all_keys (m : gmap string string) :
  Storage.remove_all (Storage.keys_of m) m = ∅.
Proof.
  apply map_eq. intros k. rewrite lookup_empty, remove_all_lookup.
  case_decide as Hin; [done|].
  destruct (m !! k) as [v|] eqn:Hk; [|done].
  exfalso. apply Hin. unfold Storage.keys_of.
  apply list_elem_of_fmap. exists (k, v). split; [done|].
  by apply elem_of_map_to_list.
Qed.

Lemma settlement_of_new (ps : list Storage.settlement) (s : Storage.settlement)
    (m : gmap string string) (g r : Storage.behaviour) :
  Storage.settlement_of (Storage.mkWorld m (ps ++ [s]) g r)
                        (Storage.promise_at (length ps)) = Some s.
Proof.
  unfold Storage.settlement_of, Storage.promise_at. cbn [addr Storage.promises].
  replace (Nat.leb Storage.base (Storage.base + length ps)) with true
    by (symmetry; apply Nat.leb_le; lia).
  replace (Storage.base + length ps - Storage.base)%nat with (length ps) by lia.
  by rewrite lookup_app_r, Nat.sub_diag by lia.
Qed.

Lemma clearAsync_healthy (this : Tester) (m : gmap string string)
    (made : list Storage.settlement) :
  truthy (clearAsyncStorage (this_props this)) = true →
  let s := run Storage.env (clearAsync this) (Storage.healthy m made) in
  outcome_of s = Finished (Normal tt) ∧ Storage.items (world_of s) = ∅.
Proof.
  intros Hflag. unfold clearAsync. rewrite Hflag.
  unfold outcome_of, world_of, Storage.healthy.
  cbn -[Storage.settlement_of Storage.promise_at].
  unfold Storage.then_.
  cbn -[Storage.settlement_of Storage.promise_at].
  rewrite settlement_of_new.
  cbn -[Storage.settlement_of Storage.promise_at].
  unfold Storage.await. rewrite settlement_of_new.
  cbn. by rewrite remove_all_keys.
Qed.

(** C3.  [clearAsync] never ends in a thrown error or a rejection, whatever
    the storage and the promises do.  When the [clearAsyncStorage] flag is
    falsy it makes no call at all and completes at once.  When the flag is
    truthy it asks for all keys and passes them on to [multiRemove]; an
    error at any of the three steps (the call of [getAllKeys], the [then],
    the awaited removal) is caught and followed by one warning and nothing
    else.  Against a store in working order, the run with the flag set
    completes and leaves no item in the store, and the run with the flag
    unset leaves the items as they were. *)
Theorem C3_clearAsync_never_fails {W} (env : environment W) (this : Tester)
    (w : W) :
  let r := run env (clearAsync this) w in
  (∀ e, outcome_of r ≠ Finished (Abrupt e))
  ∧ (if truthy (clearAsyncStorage (this_props this))
     then clearing_run (trace_of r) (outcome_of r)
     else r = ([], w, Finished (Normal tt)))
  ∧ (∀ (m : gmap string string) (made : list Storage.settlement),
       let s := run Storage.env (clearAsync this) (Storage.healthy m made) in
       outcome_of s = Finished (Normal tt)
       ∧ Storage.items (world_of s)
         = if truthy (clearAsyncStorage (this_props this)) then ∅ else m).
Proof.
  simpl. destruct (truthy (clearAsyncStorage (this_props this))) eqn:Hflag.
  - pose proof (clearAsync_run env this w Hflag) as Hrun.
    split_and!.
    + intros e. by eapply clearing_run_never_throws.
    + done.
    + intros m made. by apply clearAsync_healthy.
  - unfold clearAsync. rewrite Hflag. by split_and!.
Qed.

Example clearAsync_storage_down :
  run Storage.env (clearAsync clearing) storage_down
  = ([ Called AsyncStorage_getAllKeys (Some (Normal (Storage.promise_at 0)));
       Called (promise_then (Storage.promise_at 0) AsyncStorage_multiRemove)
              (Some (Normal (Storage.promise_at 1)));
       Called (Await (Storage.promise_at 1))
              (Some (Abrupt (VError "Error" "disk")));
       clear_warning (VError "Error" "disk") ],
     Storage.mkWorld two_items
       [Storage.Rejected (VError "Error" "disk");
        Storage.Rejected (VError "Error" "disk")]
       (Storage.Rejects (VError "Error" "disk")) Storage.Succeeds,
     Finished (Normal tt)).
Proof. reflexivity. Qed.


(** ** Mounting *)

Section SyncFacts.
Context {W : Type} (env : environment W).

Lemma run_sync_bind {A B} (m : prog A) (f : A → prog B) (w : W) :
  run_sync env (bind m f) w =
  let '(tr, w1, st) := run_sync env m w in
  match st with
  | Completed (Normal a) =>
      let '(tr2, w2, st2) := run_sync env (f a) w1 in (tr ++ tr2, w2, st2)
  | Completed (Abrupt e) => (tr, w1, Completed (Abrupt e))
  | Suspended v k => (tr, w1, Suspended v (λ c, bind (k c) f))
  | Hung => (tr, w1, Hung)
  end.
Proof.
  revert w. induction m as [a|e|k IH|o k IH|e k IH]; intros w; simpl.
  - destruct (run_sync env (f a) w) as [[tr2 w2] o2]. reflexivity.
  - reflexivity.
  - destruct (random env w) as [r w1]. rewrite IH.
    destruct (run_sync env (k r) w1) as [[tr w2] st].
    destruct st as [[a|x]|v k'|]; [|reflexivity..].
    destruct (run_sync env (f a) w2) as [[tr2 w3] o2]. reflexivity.
  - rewrite IH. destruct (run_sync env k w) as [[tr w1] st].
    destruct st as [[a|x]|v k'|]; [|reflexivity..].
    destruct (run_sync env (f a) w1) as [[tr2 w2] o2]. reflexivity.
  - assert (
      match respond env e w with
      | (None, w1) => ([Called e None], w1, Hung)
      | (Some c, w1) =>
          let '(tr, w2, st) := run_sync env (bind (k c) f) w1 in
          (Called e (Some c) :: tr, w2, st)
      end =
      let '(tr, w1, st) :=
        match respond env e w with
        | (None, w1) => ([Called e None], w1, Hung)
        | (Some c, w1) =>
            let '(tr, w2, st) := run_sync env (k c) w1 in
            (Called e (Some c) :: tr, w2, st)
        end in
      match st with
      | Completed (Normal a) =>
          let '(tr2, w2, st2) := run_sync env (f a) w1 in (tr ++ tr2, w2, st2)
      | Completed (Abrupt x) => (tr, w1, Completed (Abrupt x))
      | Suspended v k0 => (tr, w1, Suspended v (λ c, bind (k0 c) f))
      | Hung => (tr, w1, Hung)
      end) as Hgen.
    { destruct (respond env e w) as [[c|] w1]; [|reflexivity].
      rewrite IH. destruct (run_sync env (k c) w1) as [[tr w2] st].
      destruct st as [[a|x]|v k'|]; [|reflexivity..].
      destruct (run_sync env (f a) w2) as [[tr2 w3] o2]. reflexivity. }
    destruct e; try exact Hgen. reflexivity.
Qed.

Lemma run_sync_call (e : eff) (w : W) :
  (∀ v, e ≠ Await v) →
  run_sync env (call e) w =
  match respond env e w with
  | (None, w1) => ([Called e None], w1, Hung)
  | (Some (Normal v), w1) =>
      ([Called e (Some (Normal v))], w1, Completed (Normal v))
  | (Some (Abrupt x), w1) =>
      ([Called e (Some (Abrupt x))], w1, Completed (Abrupt x))
  end.
Proof.
  intros He. unfold call.
  destruct e; simpl; try (destruct (respond env _ w) as [[[v|x]|] w1]; reflexivity).
  by destruct (He v).
Qed.




End SyncFacts.

Section Programs.
Context (P : eff → bool).
Hypothesis P_scope : ∀ c t, P (New_TestScope c t) = false.
Hypothesis P_call : ∀ f args, P (Call f args) = false.
Hypothesis P_await : ∀ v, P (Await v) = false.
Hypothesis P_runner : ∀ c s d r sr o, P (New_TestRunner c s d r sr o) = false.
Hypothesis P_run : ∀ r, P (runner_run r) = false.

Lemma runTests_loop_avoids (this : Tester) (wt : value) (specs : list value) :
  ∀ testSuites, avoids P (runTests_loop this wt specs testSuites).
Proof using P_scope P_call P_await.
  induction specs as [|spec rest IH]; intros testSuites; [done|].
  cbn [runTests_loop]. unfold mbind, prog_bind.
  apply avoids_bind; [by apply avoids_call|]. intros scope.
  apply avoids_bind.
  { unfold js_call. destruct (is_callable spec); [by apply avoids_call|done]. }
  intros promise. apply avoids_bind; [by apply avoids_call|]. auto.
Qed.

Lemma runTests_avoids (this : Tester) : avoids P (runTests this).
Proof using All.
  unfold runTests, mbind, prog_bind.
  apply avoids_bind; [apply runTests_loop_avoids|]. intros suites.
  apply avoids_bind; [by apply avoids_call|]. intros runner.
  apply avoids_bind; [by apply avoids_call|]. done.
Qed.

End Programs.

(** ** Where a run of [runTests] stops *)

Lemma runTests_calls {W} (env : environment W) (this : Tester)
    (w : W) :
  let r := run env (runTests this) w in
  let tr := trace_of r in
  let given := specs (this_props this) in
  Forall (λ req, req = (this, waitTime (this_props this))) (scope_requests tr)
  ∧ spec_calls tr `prefix_of` zip_with with_scope given (scopes_made tr)
  ∧ (length (scopes_made tr) ≤ length given)%nat
  ∧ match runner_requests tr with
    | [] => outcome_of r ≠ Finished (Normal tt)
    | req :: more =>
        more = [] ∧ req = (this, scopes_made tr)
        ∧ spec_calls tr = zip_with with_scope given (scopes_made tr)
        ∧ length (scopes_made tr) = length given
    end
  ∧ (forallb is_callable given = true → forallb came_back tr = true →
     outcome_of r = Finished (Normal tt)
     ∧ runner_requests tr = [(this, scopes_made tr)]).
Proof.
  intros r tr given. subst tr r given.
  destruct (runTests_sound env this w)
    as [ts tail o Hlen Hpart|k spec ts tail o Hk Hlen Hbroken].
  - destruct (turns_events_read this _ ts Hlen) as (Hc & Hs & Hq & Hr).
    destruct (runner_part_read _ _ _ _ Hpart) as (Hc' & Hs' & Hq' & Hr' & Hlive).
    unfold spec_calls, scopes_made, scope_requests, runner_requests in *.
    rewrite !omap_app, Hc, Hs, Hr, Hc', Hs', Hq', Hr', !app_nil_r. simpl.
    split_and!; try done.
    + by rewrite length_fmap, Hlen.
    + by rewrite length_fmap.
    + intros _ Hback. rewrite forallb_app in Hback.
      apply andb_true_iff in Hback as [_ Hback]. auto.
  - assert (length (take k (specs (this_props this))) = k) as Htake.
    { apply lookup_lt_Some in Hk. rewrite length_take. lia. }
    assert (length ts = length (take k (specs (this_props this)))) as Hlen'
      by congruence.
    destruct (turns_events_read this _ ts Hlen') as (Hc & Hs & Hq & Hr).
    destruct (broken_turn_read _ _ _ _ Hbroken)
      as (Hc' & Hs' & Hq' & Hr' & Ho & Hlive).
    unfold spec_calls, scopes_made, scope_requests, runner_requests in *.
    rewrite !omap_app, Hc, Hs, Hr, Hr'. simpl.
    pose proof (take_drop_middle _ _ _ Hk) as Hsplit.
    split_and!.
    + apply Forall_app. auto.
    + rewrite <- Hsplit at 2.
      rewrite zip_with_app by (rewrite length_fmap; lia).
      apply prefix_app.
      destruct Hc' as [->|(scope & -> & ->)]; [apply prefix_nil|].
      simpl. apply prefix_cons, prefix_nil.
    + apply lookup_lt_Some in Hk. rewrite length_app, length_fmap.
      destruct Hs' as [->|(scope & ->)]; simpl; lia.
    + done.
    + intros Hfun Hback. rewrite forallb_app in Hback.
      apply andb_true_iff in Hback as [_ Hback].
      apply Hlive in Hback.
      rewrite forallb_forall in Hfun.
      apply list_elem_of_lookup_2, list_elem_of_In, Hfun in Hk. congruence.
Qed.

Lemma runTests_loop_stray {W} (env : environment W) (this : Tester)
    (wt : value) (specs : list value) :
  (∃ spec, spec ∈ specs ∧ is_callable spec = false) →
  ∀ testSuites w suites,
    outcome_of (run env (runTests_loop this wt specs testSuites) w)
    ≠ Finished (Normal suites).
Proof.
  unfold outcome_of.
  induction specs as [|spec rest IH]; intros (stray & Hin & Hstray).
  - by apply elem_of_nil in Hin.
  - intros testSuites w suites. cbn [runTests_loop].
    unfold mbind, prog_bind. rewrite run_bind, run_call.
    destruct (respond env _ w) as [[[scope|e]|] w1];
      cbv beta iota zeta; try (by simpl).
    rewrite run_bind. unfold js_call.
    destruct (is_callable spec) eqn:Hc; [|by simpl].
    rewrite run_call.
    destruct (respond env _ w1) as [[[promise|e]|] w2];
      cbv beta iota zeta; try (by simpl).
    rewrite run_bind, run_call.
    destruct (respond env _ w2) as [[[x|e]|] w3];
      cbv beta iota zeta; try (by simpl).
    assert (∃ spec, spec ∈ rest ∧ is_callable spec = false) as Hrest.
    { apply elem_of_cons in Hin as [->|Hin]; [congruence|eauto]. }
    specialize (IH Hrest (testSuites ++ [scope]) w3 suites).
    destruct (run env (runTests_loop this wt rest (testSuites ++ [scope])) w3)
      as [[tr w4] o]. simpl in *. done.
Qed.

Lemma turns_events_all_back (this : Tester) (given : list value) :
  ∀ ts, Forall (λ ev, negb (came_back ev) = false) (turns_events this given ts).
Proof.
  induction given as [|spec rest IH]; intros [|t ts]; simpl;
    try apply Forall_nil_2.
  repeat (apply Forall_cons_2; [reflexivity|]). apply IH.
Qed.

(** Nothing follows a call that did not come back with a value. *)
Lemma runTests_run_stops (this : Tester) (tr before after : list event)
    (o : outcome unit) (ev : event) :
  runTests_run this tr o →
  tr = before ++ ev :: after →
  came_back ev = false →
  after = [] ∧ o ≠ Finished (Normal tt)
  ∧ (is_runner_event ev = false → runner_requests tr = []).
Proof.
  intros Hrun Htr Hev.
  assert (negb (came_back ev) = true) as Hev' by by rewrite Hev.
  destruct Hrun as [ts tail o Hlen Hpart|k spec ts tail o Hk Hlen Hbroken].
  - apply (split_beyond (λ ev, negb (came_back ev))) in Htr
      as (rest & -> & Htail); [|apply turns_events_all_back|done].
    destruct Hpart; destruct rest as [|? [|? [|? ?]]];
      simpl in Htail; simplify_eq; try done.
  - pose proof Htr as Htr'.
    apply (split_beyond (λ ev, negb (came_back ev))) in Htr
      as (rest & -> & Htail); [|apply turns_events_all_back|done].
    assert (length ts = length (take k (specs (this_props this)))) as Hlen'.
    { apply lookup_lt_Some in Hk. rewrite length_take. lia. }
    destruct (turns_events_read this _ ts Hlen') as (_ & _ & _ & Hr).
    destruct (broken_turn_read _ _ _ _ Hbroken) as (_ & _ & _ & Hr' & Ho & _).
    assert (runner_requests
              (turns_events this (take k (specs (this_props this))) ts ++ tail)
            = []) as Hnone.
    { unfold runner_requests in *. by rewrite omap_app, Hr, Hr'. }
    split_and!; [|done|done].
    destruct Hbroken; destruct rest as [|? [|? [|? [|? ?]]]];
      simpl in Htail; simplify_eq; try done.
Qed.

(** An entry that is not a function keeps the runner from being built. *)
Lemma stray_no_runner {W} (env : environment W) (this : Tester) (w : W)
    (stray : value) :
  stray ∈ specs (this_props this) →
  is_callable stray = false →
  runner_requests (trace_of (run env (runTests this) w)) = []
  ∧ outcome_of (run env (runTests this) w) ≠ Finished (Normal tt).
Proof.
  intros Hin Hstray.
  assert (∀ suites,
    outcome_of (run env (runTests_loop this (waitTime (this_props this))
                           (specs (this_props this)) []) w)
    ≠ Finished (Normal suites)) as Hloop.
  { apply runTests_loop_stray. eauto. }
  pose proof (runTests_sound env this w) as Hrun.
  unfold runTests, mbind, prog_bind, trace_of, outcome_of in *.
  rewrite run_bind in *.
  destruct (run env (runTests_loop this (waitTime (this_props this))
              (specs (this_props this)) []) w) as [[tr w1] [[suites|e]|]]
    eqn:Hl; simpl in *; [by destruct (Hloop suites)| |].
  - split; [|done].
    apply runTests_loop_run in Hl
      as [(ts & _ & _ & ?)|(k & s & ts & tail & o' & Hk & Hlen & Hb & -> & _)];
      [done|].
    assert (length ts = length (take k (specs (this_props this)))) as Hlen'.
    { apply lookup_lt_Some in Hk. rewrite length_take. lia. }
    destruct (turns_events_read this _ ts Hlen') as (_ & _ & _ & Hr).
    destruct (broken_turn_read _ _ _ _ Hb) as (_ & _ & _ & Hr' & _).
    unfold runner_requests in *. by rewrite omap_app, Hr, Hr'.
  - split; [|done].
    apply runTests_loop_run in Hl
      as [(ts & _ & _ & ?)|(k & s & ts & tail & o' & Hk & Hlen & Hb & -> & _)];
      [done|].
    assert (length ts = length (take k (specs (this_props this)))) as Hlen'.
    { apply lookup_lt_Some in Hk. rewrite length_take. lia. }
    destruct (turns_events_read this _ ts Hlen') as (_ & _ & _ & Hr).
    destruct (broken_turn_read _ _ _ _ Hb) as (_ & _ & _ & Hr' & _).
    unfold runner_requests in *. by rewrite omap_app, Hr, Hr'.
Qed.

(** C2, as amended.  [runTests] builds every scope from this Tester and the
    configured [waitTime]; it calls the specs in the order supplied, the
    i-th call being the i-th spec with the i-th scope built, and never more
    calls than specs.  The loop stops at the first spec whose scope, call
    or awaited promise throws, rejects or never comes back: nothing
    follows that call, so no later spec is called, no runner is built and
    [runTests] does not complete; an entry that is not a function stops it
    in the same way.  When a runner is built, every spec has been called
    exactly once, in order, each with its own scope, and the runner is
    given exactly those scopes in that order; this is what happens
    whenever every spec is a function and every call comes back with a
    value. *)
Theorem C2_specs_called_in_order {W} (env : environment W) (this : Tester)
    (w : W) :
  let r := run env (runTests this) w in
  let tr := trace_of r in
  let given := specs (this_props this) in
  Forall (λ req, req = (this, waitTime (this_props this))) (scope_requests tr)
  ∧ spec_calls tr `prefix_of` zip_with with_scope given (scopes_made tr)
  ∧ (length (scopes_made tr) ≤ length given)%nat
  ∧ match runner_requests tr with
    | [] => outcome_of r ≠ Finished (Normal tt)
    | req :: more =>
        more = [] ∧ req = (this, scopes_made tr)
        ∧ spec_calls tr = zip_with with_scope given (scopes_made tr)
        ∧ length (scopes_made tr) = length given
    end
  ∧ (forallb is_callable given = true → forallb came_back tr = true →
     outcome_of r = Finished (Normal tt)
     ∧ runner_requests tr = [(this, scopes_made tr)])
  ∧ (∀ before ev after,
       tr = before ++ ev :: after →
       came_back ev = false →
       after = [] ∧ outcome_of r ≠ Finished (Normal tt)
       ∧ (is_runner_event ev = false → runner_requests tr = []))
  ∧ (∀ stray,
       stray ∈ given → is_callable stray = false →
       runner_requests tr = [] ∧ outcome_of r ≠ Finished (Normal tt)).
Proof.
  intros r tr given. subst tr r given.
  destruct (runTests_calls env this w) as (H1 & H2 & H3 & H4 & H5).
  split_and!; try done.
  - intros before ev after Htr Hev.
    eapply runTests_run_stops; [apply (runTests_sound env this w)|done..].
  - intros stray Hin Hstray. by apply (stray_no_runner env this w stray).
Qed.

Lemma C2_witness :
  (forallb is_callable (specs (this_props two_specs)) = true
   ∧ forallb came_back
       (trace_of (run scripted (runTests two_specs) both_register)) = true)
  ∧ outcome_of (run scripted (runTests two_specs) both_register)
    = Finished (Normal tt)
  ∧ runner_requests (trace_of (run scripted (runTests two_specs) both_register))
    = [(two_specs,
        scopes_made (trace_of (run scripted (runTests two_specs) both_register)))].
Proof.
  split; [split; reflexivity|].
  destruct (C2_specs_called_in_order scripted two_specs both_register)
    as (_ & _ & _ & _ & Hlive & _).
  apply Hlive; reflexivity.
Defined.

(** The reading at face value fails when the first of two specs throws:
    one scope is built, the second spec is never called and no runner is
    made. *)
Lemma C2_counterexample :
  spec_calls (trace_of (run scripted (runTests two_specs) first_throws))
    = [(spec_A, [plain_object 40 PUndefined])]
  ∧ runner_requests (trace_of (run scripted (runTests two_specs) first_throws))
    = []
  ∧ ¬ specs_as_stated scripted two_specs first_throws.
Proof.
  split_and!; [reflexivity..|].
  intros (_ & Hlen & _). vm_compute in Hlen. discriminate.
Qed.

Lemma mount_rest_run {W} (env : environment W) (this : Tester) (w : W) :
  trace_of (run env (componentDidMount_rest this) w) =
  if is_realtime_sink (this_reporter this)
  then [Called (reporter_onStart (this_reporter this))
               (respond env (reporter_onStart (this_reporter this)) w).1]
  else [].
Proof.
  unfold componentDidMount_rest, trace_of.
  destruct (this_reporter this) as [[| | | | |]|o| |]; simpl; try reflexivity.
  destruct (inherits_Function o); simpl; [reflexivity|].
  destruct (loose_eq_string (type_prop o) "realtime"); simpl; [|reflexivity].
  destruct (respond env _ w) as [[[v|x]|] w1]; reflexivity.
Qed.

(** The mounting, stretch by stretch: the first stretch of [runTests], then
    (unless a call of that stretch never returned) the rest of
    [componentDidMount], then the job [runTests] left. *)
Lemma mount_anatomy {W} (env : environment W) (this : Tester) (w : W) :
  ∃ tr2 tr3 w2,
    (mount env this w).1 = (run_sync env (runTests this) w).1.1 ++ tr2 ++ tr3
    ∧ (componentDidMount env this w).1.1.1
      = (run_sync env (runTests this) w).1.1 ++ tr2
    ∧ (componentDidMount env this w).2 = (run_sync env (runTests this) w).2
    ∧ tr3 = trace_of (resume env (run_sync env (runTests this) w).2 w2)
    ∧ match (run_sync env (runTests this) w).2 with
      | Hung => tr2 = [] ∧ (componentDidMount env this w).1.2 = Pending
      | _ =>
          tr2 = trace_of (run env (componentDidMount_rest this)
                            (run_sync env (runTests this) w).1.2)
          ∧ (componentDidMount env this w).1.2
            = outcome_of (run env (componentDidMount_rest this)
                            (run_sync env (runTests this) w).1.2)
      end.
Proof.
  unfold mount, componentDidMount.
  destruct (run_sync env (runTests this) w) as [[tr1 w1] job].
  unfold trace_of, outcome_of.
  destruct job as [c|v k|]; simpl.
  - destruct (run env (componentDidMount_rest this) w1) as [[tr2 w2] o].
    exists tr2, [], w2. simpl. by rewrite !app_nil_r.
  - destruct (run env (componentDidMount_rest this) w1) as [[tr2 w2] o].
    simpl.
    destruct (respond env (Await v) w2) as [[c|] w3] eqn:Hans.
    + destruct (run env (k c) w3) as [[tr3 w4] o3] eqn:Hk.
      exists tr2, (Called (Await v) (Some c) :: tr3), w2. simpl.
      rewrite Hans, Hk. simpl. by rewrite <- app_assoc.
    + exists tr2, [Called (Await v) None], w2. simpl.
      rewrite Hans. simpl. by rewrite <- app_assoc.
  - exists [], [], w1. simpl. by rewrite !app_nil_r.
Qed.


Example mount_one_spec :
  (mount scripted one_spec_realtime mounting).1
  = [ Called (New_TestScope one_spec_realtime (VNumber 2000))
             (Some (Normal (plain_object 40 PUndefined)));
      Called (Call spec_A [plain_object 40 PUndefined])
             (Some (Normal (plain_object 41 PUndefined)));
      Called (reporter_onStart realtime_sink) (Some (Normal VUndefined));
      Called (Await (plain_object 41 PUndefined)) (Some (Normal VUndefined));
      Called (new_runner one_spec_realtime [plain_object 40 PUndefined])
             (Some (Normal (plain_object 43 PUndefined)));
      Called (runner_run (plain_object 43 PUndefined))
             (Some (Normal (plain_object 44 PUndefined))) ].
Proof. reflexivity. Qed.

Example mount_hung :
  (mount scripted one_spec_realtime never_back).1
  = [ Called (New_TestScope one_spec_realtime (VNumber 2000)) None ]
  ∧ (componentDidMount scripted one_spec_realtime never_back).2 = Hung.
Proof. split; reflexivity. Qed.

Example mount_no_spec :
  (mount scripted no_spec_realtime mounting).1
  = [ Called (new_runner no_spec_realtime [])
             (Some (Normal (plain_object 40 PUndefined)));
      Called (runner_run (plain_object 40 PUndefined))
             (Some (Normal (plain_object 41 PUndefined)));
      Called (reporter_onStart realtime_sink) (Some (Normal VUndefined)) ].
Proof. reflexivity. Qed.

(** The same order holds when [componentDidMount] starts [runTests] and the
    rest of it runs as a later job: the events of [runTests] before and
    after the statements of [componentDidMount] make up one execution of
    it, and between them lies at most the call of [onStart]. *)
Lemma mount_specs_before_runner {W} (env : environment W) (this : Tester)
    (w : W) :
  ∃ tr1 tr2 tr3,
    (mount env this w).1 = tr1 ++ tr2 ++ tr3
    ∧ (tr2 = [] ∨ ∃ a, tr2 = [Called (reporter_onStart (this_reporter this)) a])
    ∧ ∀ before ev after,
        tr1 ++ tr3 = before ++ ev :: after →
        is_runner_event ev = true →
        ∃ ts rest,
          length ts = length (specs (this_props this))
          ∧ before = turns_events this (specs (this_props this)) ts ++ rest
          ∧ ((rest = []
              ∧ ∃ a, ev = Called (new_runner this (turn_scope <$> ts)) a)
             ∨ (∃ runner a,
                  rest = [Called (new_runner this (turn_scope <$> ts))
                                 (Some (Normal runner))]
                  ∧ ev = Called (runner_run runner) a)).
Proof.
  destruct (mount_anatomy env this w)
    as (tr2 & tr3 & w2 & Hm & _ & _ & H3 & Hcase).
  pose proof (run_sync_exec env (runTests this) w w2) as Hexec.
  pose proof (mount_rest_run env this (run_sync env (runTests this) w).1.2)
    as Hrest.
  destruct (run_sync env (runTests this) w) as [[tr1 w1] job].
  simpl in *. rewrite <- H3 in Hexec.
  exists tr1, tr2, tr3. split_and!.
  - done.
  - destruct job; destruct Hcase as [-> _]; auto;
      rewrite Hrest; destruct (is_realtime_sink _); eauto.
  - intros before ev after Htr Hev.
    apply exec_scripted in Hexec as (s & Hs & Ho).
    eapply runner_after_turns; [|exact Htr|exact Hev].
    rewrite <- Hs. apply (runTests_sound scripted this s).
Qed.


(** ** The constructor and the reporter *)

(** C5.  What the constructor does with the [reporter] option, where it is
    said to use a function as it is and to instantiate a sink class or,
    with no option, the built-in sink.  It draws the key; then, for an
    option that is an instance of [Function], which every class is, it
    logs the deprecation warning (whose text says class reporters are
    supported) and keeps the option as it is, not instantiated; for any
    other option, and for no option at all, the assignment to the
    undeclared [reporterClass] throws a ReferenceError before [new] is
    reached.  So no run of the constructor instantiates anything, neither
    a class handed over nor the built-in [Reporter]. *)
Theorem C5_reporter_never_instantiated {W} (env : environment W)
    (props : Props) (w : W) :
  let r := run env (Tester_constructor props) w in
  let k := (random env w).1 in
  (∀ cls a, Called (Construct cls) a ∉ trace_of r)
  ∧ if instanceof_Function (reporter props) then
      trace_of r = [Drew k; deprecation_warning]
      ∧ outcome_of r
        = Finished (Normal (mkTester props {| key := k |} (store props)
                                     (reporter props)))
    else
      trace_of r = [Drew k]
      ∧ outcome_of r
        = Finished (Abrupt (ReferenceError "reporterClass is not defined")).
Proof.
  unfold Tester_constructor, trace_of, outcome_of. simpl.
  destruct (random env w) as [k w1]. simpl.
  destruct (instanceof_Function (reporter props)); simpl.
  - split; [|done]. intros cls a Hin.
    apply elem_of_cons in Hin as [Hin|Hin]; [done|].
    apply elem_of_cons in Hin as [Hin|Hin]; [done|].
    by apply elem_of_nil in Hin.
  - split; [|done]. intros cls a Hin.
    apply elem_of_cons in Hin as [Hin|Hin]; [done|].
    by apply elem_of_nil in Hin.
Qed.

Example constructor_function_reporter :
  run scripted (Tester_constructor (props_with (function_at 30) [])) obliging
  = ([Drew 0.5%Q; deprecation_warning],
     mkScript [0.75%Q] (answers obliging),
     Finished (Normal (mkTester (props_with (function_at 30) [])
                         {| key := 0.5%Q |} (plain_object 10 PUndefined)
                         (function_at 30)))).
Proof. reflexivity. Qed.

(** With no [reporter] option the built-in sink is not instantiated: the
    constructor throws. *)
Example constructor_without_reporter :
  run scripted (Tester_constructor (props_with VUndefined [])) obliging
  = ([Drew 0.5%Q], mkScript [0.75%Q] (answers obliging),
     Finished (Abrupt (ReferenceError "reporterClass is not defined")))
  ∧ ¬ reporter_as_stated scripted (props_with VUndefined []) obliging.
Proof.
  split; [reflexivity|].
  intros (inst & this & _ & Hout & _). vm_compute in Hout. discriminate.
Qed.

(** A sink class handed over as the option is a constructor, yet it is
    kept as it is, with the warning for function reporters. *)
Example constructor_class_reporter :
  is_constructor reporter_class = true
  ∧ run scripted (Tester_constructor (props_with reporter_class [])) obliging
    = ([Drew 0.5%Q; deprecation_warning],
       mkScript [0.75%Q] (answers obliging),
       Finished (Normal (mkTester (props_with reporter_class [])
                           {| key := 0.5%Q |} (plain_object 10 PUndefined)
                           reporter_class))).
Proof. split; reflexivity. Qed.

(** ** Defaults *)

(** C6.  When [waitTime], [startDelay] and [clearAsyncStorage] are omitted,
    the props React hands to the component carry [2000], [0] and [false]
    for them, whatever the other options are; the defaults are these three
    entries of [Tester.defaultProps]. *)
Theorem C6_defaults (only reporter sendReport store children : value)
    (specs : list value) :
  let p := resolveDefaultProps
             (mkProps VUndefined only reporter sendReport specs
                      VUndefined store VUndefined children) in
  waitTime p = VNumber 2000
  ∧ startDelay p = VNumber 0
  ∧ clearAsyncStorage p = VBool false
  ∧ Tester_defaultProps !! "waitTime" = Some (VNumber 2000)
  ∧ Tester_defaultProps !! "startDelay" = Some (VNumber 0)
  ∧ Tester_defaultProps !! "clearAsyncStorage" = Some (VBool false).
Proof. by split_and!. Qed.

(** ** [reRender] and [render] *)

Lemma render_result (this : Tester) :
  render this =
  if isValidElement (children (this_props this))
  then Ret (mkProvider (key (this_state this)) (this_testHookStore this)
                       (children (this_props this)))
  else Throw (VError "Error"
    "React.Children.only expected to receive a single React element child.").
Proof.
  unfold render, Children_only.
  by destruct (isValidElement (children (this_props this))).
Qed.

Lemma after_updates_keeps (tr : list event) :
  ∀ this,
  this_props (after_updates this tr) = this_props this
  ∧ this_testHookStore (after_updates this tr) = this_testHookStore this
  ∧ this_reporter (after_updates this tr) = this_reporter this.
Proof.
  unfold after_updates.
  induction tr as [|ev tr IH]; intros this; simpl; [done|].
  destruct (IH (apply_update this ev)) as (-> & -> & ->).
  by destruct ev as [r|[args|partial]|e a].
Qed.

(** The reading at face value fails when [Math.random()] returns the key
    in place: the key is replaced by an equal one and nothing is
    remounted. *)
Lemma C7_counterexample :
  trace_of (run scripted (reRender two_specs) same_draw)
    = [Drew 0.25%Q; Emitted (setState {| key := 0.25%Q |})]
  ∧ render (after_updates two_specs
              (trace_of (run scripted (reRender two_specs) same_draw)))
    = Ret two_specs_rendered
  ∧ remounts two_specs_rendered two_specs_rendered = false
  ∧ ¬ reRender_as_stated scripted two_specs same_draw.
Proof.
  split_and!; [reflexivity..|].
  intros (Hfresh & _). apply Hfresh. reflexivity.
Qed.

(** C7, as amended.  A call of [reRender] draws one number from
    [Math.random()] and queues it as the new [key], whether or not it
    differs from the key in place; once React has merged the update, the key of
    the state is that number and the props, the registry and the reporter
    of the component are what they were.  The provider that [render]
    returns then carries the number drawn as its key, with the same
    registry as its value and the same child.  React remounts the subtree
    exactly when the number drawn differs from the key in place: it does
    whenever the draw is fresh.  A [render] that throws keeps throwing the
    same error. *)
Theorem C7_reRender_remounts {W} (env : environment W) (this : Tester) (w : W) :
  let r := (random env w).1 in
  let res := run env (reRender this) w in
  let this' := after_updates this (trace_of res) in
  trace_of res = [Drew r; Emitted (setState {| key := r |})]
  ∧ outcome_of res = Finished (Normal tt)
  ∧ this_state this' = {| key := r |}
  ∧ this_props this' = this_props this
  ∧ this_testHookStore this' = this_testHookStore this
  ∧ this_reporter this' = this_reporter this
  ∧ (∀ before, render this = Ret before →
       ∃ after, render this' = Ret after
              ∧ provider_key after = r
              ∧ provider_value after = provider_value before
              ∧ provider_child after = provider_child before
              ∧ remounts before after
                = negb (Qeq_bool (key (this_state this)) r)
              ∧ (¬ (r == key (this_state this))%Q →
                 remounts before after = true))
  ∧ (∀ e, render this = Throw e → render this' = Throw e).
Proof.
  simpl. unfold reRender, trace_of, outcome_of, after_updates. simpl.
  destruct (random env w) as [r w1]. simpl in *.
  split_and!; try done.
  - intros before Hbefore. rewrite render_result in Hbefore |- *. simpl.
    destruct (isValidElement (children (this_props this))); [|done].
    simplify_eq. eexists. split; [done|]. simpl. split_and!; try done.
    intros Hfresh. unfold remounts. simpl. apply negb_true_iff.
    destruct (Qeq_bool (key (this_state this)) r) eqn:Heq; [|done].
    apply Qeq_bool_iff in Heq. destruct Hfresh. by symmetry.
  - intros e He. rewrite render_result in He |- *. simpl.
    by destruct (isValidElement (children (this_props this))).
Qed.

Lemma C7_witness :
  (render two_specs = Ret two_specs_rendered
   ∧ ¬ ((random scripted obliging).1 == key (this_state two_specs))%Q)
  ∧ ∃ after,
      render (after_updates two_specs
                (trace_of (run scripted (reRender two_specs) obliging)))
        = Ret after
      ∧ provider_key after = 0.5%Q
      ∧ remounts two_specs_rendered after = true.
Proof.
  assert (render two_specs = Ret two_specs_rendered) as Hrender
    by reflexivity.
  assert (¬ ((random scripted obliging).1 == key (this_state two_specs))%Q)
    as Hfresh by (intros H; vm_compute in H; discriminate).
  split; [by split|].
  destruct (C7_reRender_remounts scripted two_specs obliging)
    as (_ & _ & _ & _ & _ & _ & Hafter & _).
  destruct (Hafter _ Hrender) as (after & Hr & Hkey & _ & _ & _ & Hremount).
  exists after. split; [exact Hr|]. split; [exact Hkey|]. exact (Hremount Hfresh).
Defined.


(** ** The registry *)

Lemma constructor_avoids_writes (props : Props) :
  avoids registry_write (Tester_constructor props).
Proof.
  unfold Tester_constructor. simpl. intros k.
  by destruct (instanceof_Function (reporter props)).
Qed.

Lemma mount_rest_avoids_writes (this : Tester) :
  avoids registry_write (componentDidMount_rest this).
Proof.
  unfold componentDidMount_rest.
  destruct (instanceof_Function (this_reporter this)); simpl; [done|].
  destruct (this_reporter this) as [[| | | | |]|o| |]; simpl; try done.
  destruct (loose_eq_string (type_prop o) "realtime"); simpl; [|done].
  split; [done|]. by intros [v|x].
Qed.

Lemma clearAsync_avoids_writes (this : Tester) :
  avoids registry_write (clearAsync this).
Proof.
  unfold clearAsync.
  destruct (truthy (clearAsyncStorage (this_props this))); simpl; [|done].
  split; [done|]. intros [p|x]; simpl; [|done].
  split; [done|]. intros [q|x]; simpl; [|done].
  split; [done|]. by intros [v|x].
Qed.

Lemma render_avoids_writes (this : Tester) :
  avoids registry_write (render this).
Proof.
  rewrite render_result. by destruct (isValidElement _).
Qed.

Lemma runTests_hands_this {W} (env : environment W) (this : Tester) (w : W) :
  Forall (λ req, req.1 = this)
         (scope_requests (trace_of (run env (runTests this) w)))
  ∧ Forall (λ req, req.1 = this)
           (runner_requests (trace_of (run env (runTests this) w))).
Proof.
  assert (∀ l : list (Tester * value),
    Forall (λ req, req = (this, waitTime (this_props this))) l →
    Forall (λ req, req.1 = this) l) as Hweak.
  { intros l Hl. eapply Forall_impl; [exact Hl|]. by intros req ->. }
  destruct (runTests_sound env this w)
    as [ts tail o Hlen Hpart|k spec ts tail o Hk Hlen Hbroken].
  - destruct (turns_events_read this _ ts Hlen) as (_ & _ & Hq & Hr).
    destruct (runner_part_read _ _ _ _ Hpart) as (_ & _ & Hq' & Hr' & _).
    unfold scope_requests, runner_requests in *.
    rewrite !omap_app, Hr, Hq', Hr', app_nil_r. simpl.
    split; [by apply Hweak|by repeat constructor].
  - assert (length ts = length (take k (specs (this_props this)))) as Hlen'.
    { apply lookup_lt_Some in Hk. rewrite length_take. lia. }
    destruct (turns_events_read this _ ts Hlen') as (_ & _ & Hq & Hr).
    destruct (broken_turn_read _ _ _ _ Hbroken) as (_ & _ & Hq' & Hr' & _).
    unfold scope_requests, runner_requests in *.
    rewrite !omap_app, Hr, Hr'. simpl.
    split; [|constructor]. apply Forall_app. split; by apply Hweak.
Qed.

(** C8.  No operation of the [Tester] registers or unregisters anything,
    whatever the code it calls answers: the constructor, the mounting
    ([componentDidMount] and the job of [runTests]), [reRender],
    [clearAsync] and [render] make no call that changes the registry.
    The constructor stores [props.store] as the registry of the component,
    no queued state update replaces it, each [TestScope] and the
    [TestRunner] are handed the component that holds it, and [render]
    gives it to the provider as its value. *)
Theorem C8_registry_untouched {W} (env : environment W) (props : Props)
    (this : Tester) (w : W) :
  Forall (λ ev, writes_registry ev = false)
         (trace_of (run env (Tester_constructor props) w))
  ∧ match outcome_of (run env (Tester_constructor props) w) with
    | Finished (Normal made) => this_testHookStore made = store props
    | _ => True
    end
  ∧ Forall (λ ev, writes_registry ev = false) (mount env this w).1
  ∧ Forall (λ req, req.1 = this)
           (scope_requests (trace_of (run env (runTests this) w)))
  ∧ Forall (λ req, req.1 = this)
           (runner_requests (trace_of (run env (runTests this) w)))
  ∧ Forall (λ ev, writes_registry ev = false)
           (trace_of (run env (reRender this) w))
  ∧ (∀ tr, this_testHookStore (after_updates this tr) = this_testHookStore this)
  ∧ Forall (λ ev, writes_registry ev = false)
           (trace_of (run env (clearAsync this) w))
  ∧ Forall (λ ev, writes_registry ev = false)
           (trace_of (run env (render this) w))
  ∧ match outcome_of (run env (render this) w) with
    | Finished (Normal provider) =>
        provider_value provider = this_testHookStore this
    | _ => True
    end.
Proof.
  split_and!.
  - apply run_avoids, constructor_avoids_writes.
  - unfold Tester_constructor, outcome_of. simpl.
    destruct (random env w) as [k w1]. simpl.
    by destruct (instanceof_Function (reporter props)).
  - destruct (mount_anatomy env this w)
      as (tr2 & tr3 & w2 & -> & _ & _ & -> & Hcase).
    pose proof (run_sync_avoids env registry_write (runTests this)
      (runTests_avoids registry_write
         ltac:(done) ltac:(done) ltac:(done) ltac:(done) ltac:(done) this) w)
      as [H1 Hjob].
    pose proof (run_avoids env registry_write _
      (mount_rest_avoids_writes this) (run_sync env (runTests this) w).1.2)
      as H2.
    pose proof (resume_avoids env registry_write _ w2 Hjob) as H3.
    repeat apply Forall_app_2; try done.
    destruct ((run_sync env (runTests this) w).2);
      destruct Hcase as [-> _]; done.
  - apply runTests_hands_this.
  - apply runTests_hands_this.
  - by apply run_avoids.
  - intros tr. apply after_updates_keeps.
  - apply run_avoids, clearAsync_avoids_writes.
  - apply run_avoids, render_avoids_writes.
  - rewrite render_result. unfold outcome_of.
    by destruct (isValidElement _).
Qed.

(** ** The counts of a Report *)

Lemma statuses_add_up (rs : list Scheduler.TestRunResult) :
  length rs
  = (Scheduler.has_status Scheduler.is_passed rs
     + Scheduler.has_status Scheduler.is_failed rs
     + Scheduler.has_status Scheduler.is_timed_out rs
     + Scheduler.has_status Scheduler.is_skipped rs)%nat.
Proof.
  unfold Scheduler.has_status.
  induction rs as [|r rs IH]; [done|].
  rewrite !filter_cons.
  destruct r as [d i j [|e|t|] ms]; simpl;
    repeat (case_decide; try done); simpl; lia.
Qed.

(** C9.  For the Report the Scheduler assembles from any suites, filter and
    time bound, the total count, which counts every declared case, is the
    sum of the numbers of results that passed, failed, timed out and were
    skipped; there is one result for each declared case. *)
Theorem C9_report_counts_add_up (suites : list (list Scheduler.TestCase))
    (only : option (list string)) (bound : nat) :
  let report := Scheduler.run suites only bound in
  Scheduler.totalCount report
  = (Scheduler.passedCount report + Scheduler.failedCount report
     + Scheduler.timedOutCount report + Scheduler.skippedCount report)%nat
  ∧ length (Scheduler.results report) = Scheduler.totalCount report.
Proof.
  simpl. unfold Scheduler.timedOutCount, Scheduler.skippedCount. simpl.
  rewrite <- statuses_add_up, length_fmap. done.
Qed.

(** The scenario of section 8 of the spec, run with the default bound. *)
Example scenario_report :
  let report := Scheduler.run Scheduler.scenario None 2000 in
  Scheduler.status <$> Scheduler.results report
    = [Scheduler.Passed; Scheduler.Failed "x"; Scheduler.TimedOut 2000]
  ∧ Scheduler.totalCount report = 3%nat
  ∧ Scheduler.passedCount report = 1%nat
  ∧ Scheduler.failedCount report = 1%nat
  ∧ Scheduler.timedOutCount report = 1%nat
  ∧ Scheduler.skippedCount report = 0%nat.
Proof. by vm_compute. Qed.

(** ** The only child *)

(** C10.  [render] hands [props.children] to [Children.only].  When exactly
    one child is written between the tags and it is a React element,
    [render] returns the provider keyed by the state key, with the
    registry of the component as its value, around that child.  When no
    child or more than one child is written (or the one child is not an
    element), [render] throws. *)
Theorem C10_render_only_child (this : Tester) (written : list value) :
  let this' := mkTester (set_children (this_props this) (jsx_children written))
                        (this_state this) (this_testHookStore this)
                        (this_reporter this) in
  match written with
  | [child] =>
      if isValidElement child
      then render this' = Ret (mkProvider (key (this_state this))
                                          (this_testHookStore this) child)
      else ∃ e, render this' = Throw e
  | _ => ∃ e, render this' = Throw e
  end.
Proof.
  simpl. rewrite render_result. simpl.
  destruct written as [|child [|second more]]; simpl; eauto.
  destruct (isValidElement child); eauto.
Qed.

Example render_children :
  render (mkTester (set_children (props_with VUndefined [])
                                 (jsx_children [element_at 11]))
                   {| key := 0.25%Q |} (plain_object 10 PUndefined) VUndefined)
  = Ret (mkProvider 0.25%Q (plain_object 10 PUndefined) (element_at 11))
  ∧ render (mkTester (set_children (props_with VUndefined []) (jsx_children []))
                     {| key := 0.25%Q |} (plain_object 10 PUndefined) VUndefined)
    = Throw (VError "Error"
        "React.Children.only expected to receive a single React element child.")
  ∧ render (mkTester (set_children (props_with VUndefined [])
                                   (jsx_children [element_at 11; element_at 12]))
                     {| key := 0.25%Q |} (plain_object 10 PUndefined) VUndefined)
    = Throw (VError "Error"
        "React.Children.only expected to receive a single React element child.").
Proof. by split_and!. Qed.

(** * Further properties of [Tester.js] *)

(** ** [runTests] *)

Lemma turns_events_came_back (this : Tester) (specs : list value) :
  ∀ ts, forallb came_back (turns_events this specs ts) = true.
Proof.
  induction specs as [|spec rest IH]; intros [|t ts]; simpl; auto.
Qed.

Lemma turns_events_awaited (this : Tester) (specs : list value) :
  ∀ ts, omap awaited (turns_events this specs ts)
        = omap returned (turns_events this specs ts).
Proof.
  induction specs as [|spec rest IH]; intros [|t ts]; simpl; auto.
  by rewrite IH.
Qed.

(** X1.  With an empty [specs] array [runTests] builds no scope, calls and
    awaits nothing: all it does is construct the runner with no suite, from
    this Tester and its [startDelay], reporter, [sendReport] and [only],
    and call its [run()]. *)
Theorem X1_runTests_without_specs {W} (env : environment W) (this : Tester)
    (w : W) :
  specs (this_props this) = [] →
  runner_part this [] (trace_of (run env (runTests this) w))
                      (outcome_of (run env (runTests this) w)).
Proof.
  intros Hspecs.
  destruct (runTests_sound env this w)
    as [ts tail o Hlen Hpart|k spec ts tail o Hk Hlen Hbroken].
  - rewrite Hspecs in *. destruct ts; [|done]. exact Hpart.
  - rewrite Hspecs in Hk. done.
Qed.

Lemma X1_witness :
  specs (this_props no_spec_realtime) = []
  ∧ runner_part no_spec_realtime []
      (trace_of (run scripted (runTests no_spec_realtime) mounting))
      (outcome_of (run scripted (runTests no_spec_realtime) mounting)).
Proof.
  split; [reflexivity|].
  apply (X1_runTests_without_specs scripted no_spec_realtime mounting).
  reflexivity.
Defined.

(** X2.  If some entry of [specs] is not a function, [runTests] never
    completes and never builds the runner, whatever the other specs do:
    the loop cannot get past that entry. *)
Theorem X2_stray_spec_stops_the_run {W} (env : environment W) (this : Tester)
    (w : W) (stray : value) :
  stray ∈ specs (this_props this) →
  is_callable stray = false →
  outcome_of (run env (runTests this) w) ≠ Finished (Normal tt)
  ∧ Forall (λ ev, is_runner_event ev = false)
           (trace_of (run env (runTests this) w)).
Proof.
  intros Hin Hstray.
  assert (∀ suites,
    outcome_of (run env (runTests_loop this (waitTime (this_props this))
                           (specs (this_props this)) []) w)
    ≠ Finished (Normal suites)) as Hloop.
  { apply runTests_loop_stray. eauto. }
  pose proof (run_avoids env runner_call _
    (runTests_loop_avoids runner_call ltac:(done) ltac:(done) ltac:(done)
       this (waitTime (this_props this)) (specs (this_props this)) []) w)
    as Hquiet.
  unfold runTests, mbind, prog_bind, trace_of, outcome_of in *.
  rewrite run_bind.
  destruct (run env (runTests_loop this (waitTime (this_props this))
              (specs (this_props this)) []) w) as [[tr w1] [[suites|e]|]];
    simpl in *; [by destruct (Hloop suites)|done..].
Qed.

Lemma X2_witness :
  (not_a_function ∈ specs (this_props with_a_stray)
   ∧ is_callable not_a_function = false)
  ∧ outcome_of (run scripted (runTests with_a_stray) both_register)
    ≠ Finished (Normal tt)
  ∧ Forall (λ ev, is_runner_event ev = false)
           (trace_of (run scripted (runTests with_a_stray) both_register)).
Proof.
  assert (not_a_function ∈ specs (this_props with_a_stray)) as Hin.
  { apply list_elem_of_further, list_elem_of_here. }
  split; [by split|].
  exact (X2_stray_spec_stops_the_run scripted with_a_stray both_register
           not_a_function Hin eq_refl).
Defined.

(** X3.  [runTests] awaits exactly what the spec functions returned, in
    order, promise or not, and nothing else: in particular it never awaits
    the result of [runner.run()], so the promise of [runTests] settles
    without waiting for the test run. *)
Theorem X3_awaits_what_specs_return {W} (env : environment W) (this : Tester)
    (w : W) :
  omap awaited (trace_of (run env (runTests this) w))
  = omap returned (trace_of (run env (runTests this) w)).
Proof.
  destruct (runTests_sound env this w)
    as [ts tail o Hlen Hpart|k spec ts tail o Hk Hlen Hbroken];
    rewrite !omap_app, turns_events_awaited; f_equal.
  - by destruct Hpart.
  - by destruct Hbroken.
Qed.


Lemma tail_no_earlier_call (tail before after : list event) (ev : event) :
  (∃ this suites o, runner_part this suites tail o)
  ∨ (∃ this spec o, broken_turn this spec tail o) →
  tail = before ++ ev :: after →
  is_spec_call ev = true →
  spec_calls before = [] ∧ omap resumed before = [].
Proof.
  intros [(this & suites & o & H)|(this & spec & o & H)] Heq Hev;
    destruct H; destruct before as [|b0 [|b1 [|b2 before]]];
    simpl in Heq; simplify_eq; try done;
    by destruct before.
Qed.

Lemma turns_sequential (this : Tester) (specs : list value) :
  ∀ ts tail before after ev,
  (∃ this suites o, runner_part this suites tail o)
  ∨ (∃ this spec o, broken_turn this spec tail o) →
  turns_events this specs ts ++ tail = before ++ ev :: after →
  is_spec_call ev = true →
  length (spec_calls before) = length (omap resumed before).
Proof.
  induction specs as [|spec rest IH]; intros ts tail before after ev Htail Heq Hev.
  - simpl in Heq.
    by destruct (tail_no_earlier_call _ _ _ _ Htail Heq Hev) as [-> ->].
  - destruct ts as [|t ts].
    + simpl in Heq.
      by destruct (tail_no_earlier_call _ _ _ _ Htail Heq Hev) as [-> ->].
    + cbn [turns_events turn_events app] in Heq.
      destruct before as [|b0 [|b1 [|b2 before]]];
        simpl in Heq; simplify_eq; try done.
      unfold spec_calls. simpl. f_equal.
      by eapply IH.
Qed.

(** X4.  The specs are registered strictly one after the other: at the
    moment a spec function is called, the result of every spec called
    before it has been awaited and the [await] has resumed.  No two specs
    are ever in flight together. *)
Theorem X4_specs_one_at_a_time {W} (env : environment W) (this : Tester)
    (w : W) (before after : list event) (ev : event) :
  trace_of (run env (runTests this) w) = before ++ ev :: after →
  is_spec_call ev = true →
  length (spec_calls before) = length (omap resumed before).
Proof.
  intros Htr Hev.
  pose proof (runTests_sound env this w) as Hrun. rewrite Htr in Hrun.
  remember (before ++ ev :: after) as tr eqn:Heq.
  destruct Hrun as [ts tail o Hlen Hpart|k spec ts tail o Hk Hlen Hbroken];
    eapply turns_sequential; eauto 6.
Qed.

Lemma X4_witness :
  (trace_of (run scripted (runTests two_specs) both_register)
     = before_spec_B ++ spec_B_called :: after_spec_B
   ∧ is_spec_call spec_B_called = true)
  ∧ length (spec_calls before_spec_B) = length (omap resumed before_spec_B).
Proof.
  assert (trace_of (run scripted (runTests two_specs) both_register)
          = before_spec_B ++ spec_B_called :: after_spec_B) as Htr
    by reflexivity.
  split; [by split|].
  exact (X4_specs_one_at_a_time scripted two_specs both_register
           _ _ _ Htr eq_refl).
Defined.

(** X5.  [runTests] stops at the first step that goes wrong.  Every call
    but the last of a run came back with a value, and the last event tells
    the outcome: [runner.run()] returning when [runTests] completes; the
    call that threw, with the very error [runTests] rejects with, or the
    scope built for an entry that is not a function; the call that never
    came back when [runTests] stays pending. *)
Theorem X5_runTests_stops_at_first_failure {W} (env : environment W)
    (this : Tester) (w : W) :
  ∃ init ev,
    trace_of (run env (runTests this) w) = init ++ [ev]
    ∧ forallb came_back init = true
    ∧ ends_with ev (outcome_of (run env (runTests this) w)).
Proof.
  destruct (runTests_sound env this w)
    as [ts tail o Hlen Hpart|k spec ts tail o Hk Hlen Hbroken].
  - pose proof (turns_events_came_back this (specs (this_props this)) ts) as Hb.
    destruct Hpart.
    + eexists (_ ++ [_]), _. rewrite <- app_assoc. split; [done|].
      rewrite forallb_app, Hb. simpl. eauto.
    + eexists (_ ++ [_]), _. rewrite <- app_assoc. split; [done|].
      rewrite forallb_app, Hb. simpl. eauto.
    + eexists (_ ++ [_]), _. rewrite <- app_assoc. split; [done|].
      rewrite forallb_app, Hb. simpl. eauto.
    + eexists _, _. split; [done|]. simpl. eauto.
    + eexists _, _. split; [done|]. simpl. eauto.
  - pose proof (turns_events_came_back this
                  (take k (specs (this_props this))) ts) as Hb.
    destruct Hbroken.
    + eexists _, _. split; [done|]. simpl. eauto.
    + eexists _, _. split; [done|]. simpl. eauto.
    + eexists _, _. split; [done|]. simpl. eauto 8.
    + eexists (_ ++ [_]), _. rewrite <- app_assoc. split; [done|].
      rewrite forallb_app, Hb. simpl. eauto.
    + eexists (_ ++ [_]), _. rewrite <- app_assoc. split; [done|].
      rewrite forallb_app, Hb. simpl. eauto.
    + eexists (_ ++ [_; _]), _. rewrite <- app_assoc. split; [done|].
      rewrite forallb_app, Hb. simpl. eauto.
    + eexists (_ ++ [_; _]), _. rewrite <- app_assoc. split; [done|].
      rewrite forallb_app, Hb. simpl. eauto.
Qed.

(** ** [componentDidMount] *)

Lemma runTests_first_stretch_calls {W} (env : environment W) (this : Tester)
    (w : W) :
  let tr := (run_sync env (runTests this) w).1.1 in
  omap awaited tr = []
  ∧ match specs (this_props this) with
    | [] => spec_calls tr = [] ∧ scope_requests tr = []
    | first :: _ =>
        spec_calls tr = [] ∨ ∃ scope, spec_calls tr = [(first, [scope])]
    end.
Proof.
  simpl. unfold runTests, mbind, prog_bind.
  destruct (specs (this_props this)) as [|spec rest].
  - simpl.
    destruct (respond env _ w) as [[[runner|e]|] w1]; simpl; try done.
    by destruct (respond env _ w1) as [[[x|e]|] w2].
  - cbn [runTests_loop]. unfold mbind, prog_bind.
    rewrite !run_sync_bind, run_sync_call by done.
    destruct (respond env _ w) as [[[scope|e]|] w1]; simpl; eauto.
    rewrite run_sync_bind. unfold js_call.
    destruct (is_callable spec); simpl; eauto.
    destruct (respond env _ w1) as [[[promise|e]|] w2]; simpl; eauto.
Qed.

Lemma mount_rest_outcome {W} (env : environment W) (this : Tester) (w : W) :
  outcome_of (run env (componentDidMount_rest this) w) =
  if is_realtime_sink (this_reporter this) then
    match (respond env (reporter_onStart (this_reporter this)) w).1 with
    | Some (Normal _) => Finished (Normal tt)
    | Some (Abrupt e) => Finished (Abrupt e)
    | None => Pending
    end
  else
    match this_reporter this with
    | VUndefined | VNull =>
        Finished (Abrupt (TypeError "Cannot read property type of undefined"))
    | _ => Finished (Normal tt)
    end.
Proof.
  unfold componentDidMount_rest, outcome_of.
  destruct (this_reporter this) as [[| | | | |]|o| |]; simpl; try reflexivity.
  destruct (inherits_Function o); simpl; [reflexivity|].
  destruct (loose_eq_string (type_prop o) "realtime"); simpl; [|reflexivity].
  destruct (respond env _ w) as [[[v|x]|] w1]; reflexivity.
Qed.

(** X6.  When [componentDidMount] returns, nothing has been awaited yet and
    at most the first spec function has been called: its registration
    happens inside the mount, that of every later spec in later jobs. *)
Theorem X6_mount_calls_first_spec_only {W} (env : environment W)
    (this : Tester) (w : W) :
  let tr := (componentDidMount env this w).1.1.1 in
  omap awaited tr = []
  ∧ match specs (this_props this) with
    | [] => spec_calls tr = []
    | first :: _ =>
        spec_calls tr = [] ∨ ∃ scope, spec_calls tr = [(first, [scope])]
    end.
Proof.
  simpl.
  destruct (mount_anatomy env this w)
    as (tr2 & tr3 & w2 & _ & -> & _ & _ & Hcase).
  pose proof (runTests_first_stretch_calls env this w) as Hfirst.
  pose proof (mount_rest_run env this (run_sync env (runTests this) w).1.2)
    as Hrest.
  destruct (run_sync env (runTests this) w) as [[tr1 w1] job].
  simpl in *. destruct Hfirst as [Hawait Hcalls].
  assert (omap awaited tr2 = [] ∧ spec_calls tr2 = []) as [Ha2 Hc2].
  { destruct job; destruct Hcase as [-> _]; try done;
      rewrite Hrest; by destruct (is_realtime_sink _). }
  unfold spec_calls in *. rewrite !omap_app, Hawait, Ha2, Hc2, !app_nil_r.
  split; [done|].
  destruct (specs (this_props this)); [by destruct Hcalls|done].
Qed.

(** X7.  What [runTests] does never makes [componentDidMount] throw: a spec
    that throws, a scope or a runner that cannot be built only reject the
    dropped promise.  Once the first stretch of [runTests] has come back,
    [componentDidMount] completes unless the reporter is a realtime sink
    whose [onStart()] throws (the error is passed on) or does not return,
    or the reporter is [null] or [undefined], whose [type] cannot be
    read. *)
Theorem X7_mount_ignores_runTests_failures {W} (env : environment W)
    (this : Tester) (w : W) :
  let r := componentDidMount env this w in
  match r.2 with
  | Hung => True
  | _ =>
      if is_realtime_sink (this_reporter this) then
        ∃ a, Called (reporter_onStart (this_reporter this)) a ∈ r.1.1.1
           ∧ r.1.2 = match a with
                     | Some (Normal _) => Finished (Normal tt)
                     | Some (Abrupt e) => Finished (Abrupt e)
                     | None => Pending
                     end
      else
        match this_reporter this with
        | VUndefined | VNull =>
            r.1.2 = Finished (Abrupt
                      (TypeError "Cannot read property type of undefined"))
        | _ => r.1.2 = Finished (Normal tt)
        end
  end.
Proof.
  simpl.
  destruct (mount_anatomy env this w)
    as (tr2 & tr3 & w2 & _ & -> & -> & _ & Hcase).
  pose proof (mount_rest_run env this (run_sync env (runTests this) w).1.2)
    as Htr.
  pose proof (mount_rest_outcome env this (run_sync env (runTests this) w).1.2)
    as Ho.
  destruct (run_sync env (runTests this) w) as [[tr1 w1] job].
  simpl in *.
  destruct job as [c|v k|]; [| |exact I]; destruct Hcase as [-> ->];
    rewrite Htr, Ho;
    (destruct (is_realtime_sink (this_reporter this));
     [ eexists; split; [|done];
       apply elem_of_app; right; apply list_elem_of_here
     | by destruct (this_reporter this) as [[| | | | |]|obj| |] ]).
Qed.

(** The mounting, taken apart: the events of [runTests] before and after
    the rest of [componentDidMount] make up one of its runs, and between
    them lies at most the call of [onStart]. *)
Lemma mount_parts {W} (env : environment W) (this : Tester) (w : W) :
  ∃ tr1 tr2 tr3 o,
    (mount env this w).1 = tr1 ++ tr2 ++ tr3
    ∧ runTests_run this (tr1 ++ tr3) o
    ∧ (tr2 = [] ∨ ∃ a, tr2 = [Called (reporter_onStart (this_reporter this)) a])
    ∧ (is_realtime_sink (this_reporter this) = false → tr2 = []).
Proof.
  destruct (mount_anatomy env this w)
    as (tr2 & tr3 & w2 & Hm & _ & _ & H3 & Hcase).
  pose proof (run_sync_exec env (runTests this) w w2) as Hexec.
  pose proof (mount_rest_run env this (run_sync env (runTests this) w).1.2)
    as Hrest.
  destruct (run_sync env (runTests this) w) as [[tr1 w1] job].
  simpl in *. rewrite <- H3 in Hexec.
  apply exec_scripted in Hexec as (s & Hs & Ho).
  exists tr1, tr2, tr3, (outcome_of (resume env job w2)). split_and!.
  - done.
  - rewrite <- Hs, <- Ho. apply (runTests_sound scripted this s).
  - destruct job; destruct Hcase as [-> _]; auto;
      rewrite Hrest; destruct (is_realtime_sink _); eauto.
  - intros Hsink. destruct job; destruct Hcase as [-> _]; auto;
      rewrite Hrest; by rewrite Hsink.
Qed.

(** ** The state *)

Lemma after_updates_none (tr : list event) :
  Forall (λ ev, is_state_update ev = false) tr →
  ∀ this, after_updates this tr = this.
Proof.
  unfold after_updates.
  induction 1 as [|ev tr Hev _ IH]; intros this; simpl; [done|].
  rewrite <- (IH this) at 2. f_equal.
  by destruct ev as [r|[args|partial]|e a].
Qed.

Lemma runTests_run_no_update (this : Tester) tr o :
  runTests_run this tr o → Forall (λ ev, is_state_update ev = false) tr.
Proof.
  assert (∀ given ts,
    Forall (λ ev, is_state_update ev = false) (turns_events this given ts))
    as Hturns.
  { induction given as [|spec rest IH]; intros [|t ts]; simpl;
      try apply Forall_nil_2.
    repeat (apply Forall_cons_2; [reflexivity|]). apply IH. }
  intros [ts tail o' Hlen Hpart|k spec ts tail o' Hk Hlen Hbroken];
    apply Forall_app; split; try apply Hturns.
  - destruct Hpart; repeat constructor.
  - destruct Hbroken; repeat constructor.
Qed.

(** X8.  Only [reRender] touches the state.  Mounting the component,
    running the specs, clearing the storage and rendering queue no state
    update, so they leave the component as it is and never remount the
    application by themselves. *)
Theorem X8_only_reRender_updates_state {W} (env : environment W)
    (this : Tester) (w : W) :
  after_updates this (mount env this w).1 = this
  ∧ after_updates this (trace_of (run env (runTests this) w)) = this
  ∧ after_updates this (trace_of (run env (clearAsync this) w)) = this
  ∧ after_updates this (trace_of (run env (render this) w)) = this.
Proof.
  split_and!; apply after_updates_none.
  - destruct (mount_parts env this w)
      as (tr1 & tr2 & tr3 & o & -> & Hrun & H2 & _).
    apply runTests_run_no_update in Hrun.
    apply Forall_app in Hrun as [H1 H3].
    repeat apply Forall_app_2; try done.
    destruct H2 as [->|[a ->]]; by repeat constructor.
  - eapply runTests_run_no_update, runTests_sound.
  - destruct (truthy (clearAsyncStorage (this_props this))) eqn:Hflag.
    + destruct (clearAsync_run env this w Hflag); by repeat constructor.
    + unfold clearAsync. rewrite Hflag. constructor.
  - rewrite render_result. destruct (isValidElement _); constructor.
Qed.

(** ** [reRender], again and again *)

Lemma reRender_times_run {W} (env : environment W) (this : Tester) (n : nat) :
  ∀ (w : W) (start : Tester),
  let res := run env (reRender_times this n) w in
  outcome_of res = Finished (Normal tt)
  ∧ length (omap drawn (trace_of res)) = n
  ∧ this_state (after_updates start (trace_of res))
    = match last (omap drawn (trace_of res)) with
      | Some r => {| key := r |}
      | None => this_state start
      end.
Proof.
  unfold trace_of, outcome_of.
  induction n as [|n IH]; intros w start; [done|].
  cbn [reRender_times]. unfold mbind, prog_bind. rewrite run_bind.
  unfold reRender at 1. simpl.
  destruct (random env w) as [r w1].
  set (start' := mkTester (this_props start) {| key := r |}
                          (this_testHookStore start) (this_reporter start)).
  specialize (IH w1 start').
  destruct (run env (reRender_times this n) w1) as [[tr w2] o].
  simpl in *. destruct IH as (-> & Hlen & Hstate).
  change (list_omap event Q drawn tr) with (omap drawn tr).
  split_and!; [done|by rewrite Hlen|].
  unfold after_updates in *. simpl. fold start'. rewrite Hstate.
  rewrite last_cons. by destruct (last (omap drawn tr)).
Qed.

(** X9.  However many times [reRender] is called in a row, each call draws
    one number, every call completes, and once React has merged the
    updates the key is the last number drawn; the props, the registry and
    the reporter stay as they were.  With no call the state is untouched. *)
Theorem X9_reRender_keeps_last_draw {W} (env : environment W) (this : Tester)
    (n : nat) (w : W) :
  let res := run env (reRender_times this n) w in
  let this' := after_updates this (trace_of res) in
  outcome_of res = Finished (Normal tt)
  ∧ length (omap drawn (trace_of res)) = n
  ∧ this_state this' = match last (omap drawn (trace_of res)) with
                       | Some r => {| key := r |}
                       | None => this_state this
                       end
  ∧ this_props this' = this_props this
  ∧ this_testHookStore this' = this_testHookStore this
  ∧ this_reporter this' = this_reporter this.
Proof.
  simpl.
  destruct (reRender_times_run env this n w this) as (Ho & Hlen & Hstate).
  destruct (after_updates_keeps
              (trace_of (run env (reRender_times this n) w)) this)
    as (Hp & Hs & Hr).
  by split_and!.
Qed.

(** ** [clearAsync] against a store *)

Lemma clearAsync_healthy_run (this : Tester) (m : gmap string string)
    (made : list Storage.settlement) :
  truthy (clearAsyncStorage (this_props this)) = true →
  let s := run Storage.env (clearAsync this) (Storage.healthy m made) in
  outcome_of s = Finished (Normal tt)
  ∧ omap warning (trace_of s) = []
  ∧ world_of s
    = Storage.healthy ∅
        ((made ++ [Storage.Fulfilled_keys (Storage.keys_of m)])
         ++ [Storage.Fulfilled VUndefined]).
Proof.
  intros Hflag. unfold clearAsync. rewrite Hflag.
  unfold outcome_of, world_of, trace_of, Storage.healthy.
  cbn -[Storage.settlement_of Storage.promise_at].
  unfold Storage.then_.
  cbn -[Storage.settlement_of Storage.promise_at].
  rewrite settlement_of_new.
  cbn -[Storage.settlement_of Storage.promise_at].
  unfold Storage.await. rewrite settlement_of_new.
  cbn. unfold Storage.with_items. cbn. by rewrite remove_all_keys.
Qed.

(** X10.  Clearing twice in a row is safe: against a store in working
    order, with the flag set, the first [clearAsync] empties the store and
    the second, which finds no key, leaves it empty; both complete and no
    warning is logged.  With the flag unset two calls do nothing at all. *)
Theorem X10_clearAsync_twice (this : Tester) (m : gmap string string)
    (made : list Storage.settlement) :
  let s := run Storage.env (clearAsync this;; clearAsync this)
               (Storage.healthy m made) in
  outcome_of s = Finished (Normal tt)
  ∧ omap warning (trace_of s) = []
  ∧ if truthy (clearAsyncStorage (this_props this))
    then Storage.items (world_of s) = ∅
    else s = ([], Storage.healthy m made, Finished (Normal tt)).
Proof.
  simpl. unfold mbind, prog_bind. rewrite run_bind.
  destruct (truthy (clearAsyncStorage (this_props this))) eqn:Hflag.
  - destruct (clearAsync_healthy_run this m made Hflag) as (Ho & Hw & Hworld).
    destruct (run Storage.env (clearAsync this) (Storage.healthy m made))
      as [[tr1 w1] o1].
    unfold outcome_of, world_of, trace_of in *. simpl in *. subst o1 w1.
    destruct (clearAsync_healthy_run this ∅
                ((made ++ [Storage.Fulfilled_keys (Storage.keys_of m)])
                 ++ [Storage.Fulfilled VUndefined]) Hflag)
      as (Ho2 & Hw2 & Hworld2).
    destruct (run Storage.env (clearAsync this) _) as [[tr2 w2] o2].
    unfold outcome_of, world_of, trace_of in *. simpl in *. subst o2 w2.
    by rewrite omap_app, Hw, Hw2.
  - unfold clearAsync. rewrite Hflag. done.
Qed.

(** X11.  When [getAllKeys] fails, by throwing or by returning a promise
    that rejects, [clearAsync] with the flag set still completes; it logs
    exactly one warning, which carries the error, and every item is still
    in the store: nothing is removed. *)
Theorem X11_clearAsync_when_keys_fail (this : Tester) (m : gmap string string)
    (made : list Storage.settlement) (how : Storage.behaviour) (e : value) :
  truthy (clearAsyncStorage (this_props this)) = true →
  how = Storage.Throws e ∨ how = Storage.Rejects e →
  let s := run Storage.env (clearAsync this) (storage_failing m made how) in
  outcome_of s = Finished (Normal tt)
  ∧ omap warning (trace_of s)
    = [[VString "[Cavy] failed to clear AsyncStorage:"; e]]
  ∧ Storage.items (world_of s) = m.
Proof.
  intros Hflag [-> | ->]; unfold clearAsync; rewrite Hflag;
    unfold outcome_of, world_of, trace_of, storage_failing.
  - by cbn.
  - cbn -[Storage.settlement_of Storage.promise_at].
    unfold Storage.then_.
    cbn -[Storage.settlement_of Storage.promise_at].
    rewrite settlement_of_new.
    cbn -[Storage.settlement_of Storage.promise_at].
    unfold Storage.await. rewrite settlement_of_new. by cbn.
Qed.

Lemma X11_witness :
  (truthy (clearAsyncStorage (this_props clearing)) = true
   ∧ (Storage.Rejects (VError "Error" "disk")
        = Storage.Throws (VError "Error" "disk")
      ∨ Storage.Rejects (VError "Error" "disk")
        = Storage.Rejects (VError "Error" "disk")))
  ∧ outcome_of (run Storage.env (clearAsync clearing) storage_down)
    = Finished (Normal tt)
  ∧ omap warning (trace_of (run Storage.env (clearAsync clearing) storage_down))
    = [[VString "[Cavy] failed to clear AsyncStorage:"; VError "Error" "disk"]]
  ∧ Storage.items (world_of (run Storage.env (clearAsync clearing) storage_down))
    = two_items.
Proof.
  split; [split; [reflexivity|by right]|].
  exact (X11_clearAsync_when_keys_fail clearing two_items []
           (Storage.Rejects (VError "Error" "disk")) (VError "Error" "disk")
           eq_refl (or_intror eq_refl)).
Defined.

(** ** From the options to the mounted component *)

(** X12.  Merging the defaults twice changes nothing more than merging
    them once; the options without a default ([only], [reporter],
    [sendReport], [specs], [store], the children) are never changed; and an
    option given as [null] is kept as [null]: only an option that is
    [undefined] gets its default. *)
Theorem X12_defaults_keep_what_is_given (given : Props) :
  resolveDefaultProps (resolveDefaultProps given) = resolveDefaultProps given
  ∧ only (resolveDefaultProps given) = only given
  ∧ reporter (resolveDefaultProps given) = reporter given
  ∧ sendReport (resolveDefaultProps given) = sendReport given
  ∧ specs (resolveDefaultProps given) = specs given
  ∧ store (resolveDefaultProps given) = store given
  ∧ children (resolveDefaultProps given) = children given
  ∧ waitTime (resolveDefaultProps (mkProps VNull (only given) (reporter given)
                 (sendReport given) (specs given) VNull (store given) VNull
                 (children given))) = VNull
  ∧ waitTime (resolveDefaultProps given)
    = match waitTime given with VUndefined => VNumber 2000 | v => v end
  ∧ startDelay (resolveDefaultProps given)
    = match startDelay given with VUndefined => VNumber 0 | v => v end
  ∧ clearAsyncStorage (resolveDefaultProps given)
    = match clearAsyncStorage given with VUndefined => VBool false | v => v end.
Proof.
  assert (∀ name v, resolve_default Tester_defaultProps name v = v
                    ∨ v = VUndefined) as Hkeep.
  { intros name [[| | | | |]| | |]; auto. }
  assert (∀ name v, Tester_defaultProps !! name = None →
                    resolve_default Tester_defaultProps name v = v) as Hnone.
  { intros name [[| | | | |]| | |] Hname; simpl; try done. by rewrite Hname. }
  destruct given as [c o r sr sp sd st wt ch]. unfold resolveDefaultProps.
  cbn [clearAsyncStorage only reporter sendReport specs startDelay store
       waitTime children].
  rewrite !(Hnone "only"), !(Hnone "reporter"), !(Hnone "sendReport"),
    !(Hnone "store"), !(Hnone "children") by done.
  split_and!; try done.
  - f_equal.
    + by destruct c as [[| | | | |]| | |].
    + by destruct sd as [[| | | | |]| | |].
    + by destruct wt as [[| | | | |]| | |].
  - by destruct wt as [[| | | | |]| | |].
  - by destruct sd as [[| | | | |]| | |].
  - by destruct c as [[| | | | |]| | |].
Qed.

(** X13.  From the constructor to [render]: when the constructor completes,
    the component holds the props it was given, and its first [render]
    returns the provider keyed by the number the constructor drew, with
    [props.store] as its value, around [props.children] when that is one
    React element; otherwise that first [render] throws. *)
Theorem X13_constructed_then_rendered {W} (env : environment W)
    (props : Props) (w : W) :
  match outcome_of (run env (Tester_constructor props) w) with
  | Finished (Normal this) =>
      this_props this = props
      ∧ render this
        = if isValidElement (children props)
          then Ret (mkProvider (random env w).1 (store props) (children props))
          else Throw (VError "Error"
            "React.Children.only expected to receive a single React element child.")
  | _ => True
  end.
Proof.
  unfold Tester_constructor, outcome_of. simpl.
  destruct (random env w) as [k w1]. simpl.
  destruct (instanceof_Function (reporter props)); simpl; [|done].
  split; [done|]. by rewrite render_result.
Qed.

Lemma runTests_run_reporter (this : Tester) tr o :
  runTests_run this tr o →
  Forall (λ ev, is_onStart ev = false) tr
  ∧ Forall (λ r, r = this_reporter this) (omap runner_reporter tr).
Proof.
  assert (∀ given ts,
    Forall (λ ev, is_onStart ev = false) (turns_events this given ts)
    ∧ omap runner_reporter (turns_events this given ts) = []) as Hturns.
  { induction given as [|spec rest IH]; intros [|t ts]; simpl;
      try (split; [apply Forall_nil_2|done]).
    destruct (IH ts) as [Hno Hrep]. split; [|exact Hrep].
    by repeat (apply Forall_cons_2; [reflexivity|]). }
  intros [ts tail o' Hlen Hpart|k spec ts tail o' Hk Hlen Hbroken];
    rewrite omap_app.
  - destruct (Hturns (specs (this_props this)) ts) as [Hno ->]. simpl.
    split; [apply Forall_app; split; [done|]|];
      destruct Hpart; by repeat constructor.
  - destruct (Hturns (take k (specs (this_props this))) ts) as [Hno ->]. simpl.
    split; [apply Forall_app; split; [done|]|];
      destruct Hbroken; by repeat constructor.
Qed.


(** X14.  A reporter option that is an instance of [Function] always gets
    a component: the constructor cannot fail.  That component keeps the
    function itself as its reporter, hands it unchanged to every runner it
    builds, and never calls [onStart] on it, whatever [type] the function
    carries. *)
Theorem X14_function_reporter {W} (env : environment W) (props : Props)
    (w w' : W) :
  instanceof_Function (reporter props) = true →
  ∃ this,
    outcome_of (run env (Tester_constructor props) w) = Finished (Normal this)
    ∧ this_reporter this = reporter props
    ∧ Forall (λ ev, is_onStart ev = false) (mount env this w').1
    ∧ Forall (λ r, r = reporter props)
             (omap runner_reporter (mount env this w').1).
Proof.
  intros Hfun.
  unfold Tester_constructor, outcome_of. simpl.
  destruct (random env w) as [k w1]. simpl. rewrite Hfun. simpl.
  eexists. split; [done|]. split; [done|].
  set (this := mkTester props {| key := k |} (store props) (reporter props)).
  destruct (mount_parts env this w')
    as (tr1 & tr2 & tr3 & o & -> & Hrun & _ & H2).
  assert (is_realtime_sink (this_reporter this) = false) as Hsink.
  { simpl. destruct (reporter props) as [p|obj| |]; try done.
    simpl in *. by rewrite Hfun. }
  rewrite (H2 Hsink). simpl.
  by apply runTests_run_reporter in Hrun.
Qed.

Lemma X14_witness :
  instanceof_Function (reporter (props_with (function_at 30) [spec_A])) = true
  ∧ ∃ this,
      outcome_of (run scripted
                    (Tester_constructor (props_with (function_at 30) [spec_A]))
                    obliging)
      = Finished (Normal this)
      ∧ this_reporter this = function_at 30
      ∧ Forall (λ ev, is_onStart ev = false) (mount scripted this mounting).1
      ∧ Forall (λ r, r = function_at 30)
               (omap runner_reporter (mount scripted this mounting).1).
Proof.
  split; [reflexivity|].
  exact (X14_function_reporter scripted (props_with (function_at 30) [spec_A])
           obliging mounting eq_refl).
Defined.
